(** * Coverage model of adolphus (coverage/camera.py)

    A shallow embedding of the discrete scene with occlusion ([Scene]),
    the single-camera fuzzy coverage model ([Camera.mu]) and the two
    multi-camera aggregations ([MultiCameraSimple], [MultiCamera3D]).

    Numbers are real numbers ([R]); Python exceptions are explicit
    [Err] results.  The library collaborators that are not part of the
    source ([fuzz.TrapezoidalFuzzyNumber], [fuzz.FuzzySet], the pose
    mapping of [geometry]) are modelled from their documented behaviour. *)

From Stdlib Require Import Reals Lra Lia List String Bool ZArith.
Import ListNotations.
Open Scope R_scope.

(** ** Python exceptions and the result of a call *)

Inductive exn :=
| ValueError
| ZeroDivisionError
| KeyError
(** [OutOfFuel] is not a Python exception: it is returned only when the
    fuel given to the traversal loop of [occluded] runs out, which the
    termination theorem shows never happens for [pstep > 0]. *)
| OutOfFuel.

Inductive result (A : Type) :=
| Ok (a : A)
| Err (e : exn).
Arguments Ok {A} a.
Arguments Err {A} e.

Definition bind {A B} (r : result A) (f : A -> result B) : result B :=
  match r with Ok a => f a | Err e => Err e end.

Notation "x <- r ;; k" := (bind r (fun x => k))
  (at level 61, r at next level, right associativity).

(** [for a in l: out += f(a)] where [f] may raise. *)
Fixpoint flat_mapM {A B} (f : A -> result (list B)) (l : list A)
  : result (list B) :=
  match l with
  | [] => Ok []
  | a :: t => xs <- f a ;; ys <- flat_mapM f t ;; Ok (xs ++ ys)
  end.

(** ** Geometry values ([geometry.Point], [geometry.DirectionalPoint]) *)

(** A point [(x, y, z)]; [get v i] is Python's [v[i]]. *)
Record vec3 := V3 { px : R; py : R; pz : R }.

Definition get (v : vec3) (i : nat) : R :=
  match i with 0%nat => px v | 1%nat => py v | _ => pz v end.

(** A [Point] or a [DirectionalPoint] [(x, y, z, rho, eta)]. *)
Inductive dpoint :=
| Pt (x y z : R)
| DPt (x y z rho eta : R).

Definition pos (p : dpoint) : vec3 :=
  match p with Pt x y z => V3 x y z | DPt x y z _ _ => V3 x y z end.

Definition Req_b (a b : R) : bool := if Req_EM_T a b then true else false.
Definition Rlt_b (a b : R) : bool := if Rlt_dec a b then true else false.

Definition vec3_eqb (a b : vec3) : bool :=
  Req_b (px a) (px b) && Req_b (py a) (py b) && Req_b (pz a) (pz b).

Definition dpoint_eq_dec (a b : dpoint) : {a = b} + {a <> b}.
Proof. decide equality; apply Req_EM_T. Defined.

(** Python's [p in self.opaque] for a set of points. *)
Definition mem (p : vec3) (s : list vec3) : bool := existsb (vec3_eqb p) s.

(** Python's [set.add]. *)
Definition set_add (p : vec3) (s : list vec3) : list vec3 :=
  if mem p s then s else p :: s.

(** ** Python and numpy numerics *)

(** [int(r)] on a float: truncation towards zero. *)
Definition pyint (r : R) : Z :=
  if Rle_dec 0 r then Int_part r else (- Int_part (- r))%Z.

(** [x % m] on floats: [x - m * floor(x / m)], raising for [m = 0]. *)
Definition pymod (x m : R) : result R :=
  if Req_EM_T m 0 then Err ZeroDivisionError
  else Ok (x - m * IZR (Int_part (x / m))).

(** [numpy.arange(a, b, s)]: [ceil((b - a) / s)] values [a + i * s]. *)
Definition arange_len (a b s : R) : nat :=
  Z.to_nat (- Int_part (- ((b - a) / s))).

Definition arange_l (a b s : R) : list R :=
  map (fun i => a + INR i * s) (seq 0 (arange_len a b s)).

Definition arange (a b s : R) : result (list R) :=
  if Req_EM_T s 0 then Err ZeroDivisionError else Ok (arange_l a b s).

(** ** [Scene] *)

Record Scene := {
  sx : R * R;  sy : R * R;  sz : R * R;
  pstep : R;  dstep : R;
  opaque : list vec3 }.

Definition with_opaque (sc : Scene) (o : list vec3) : Scene :=
  {| sx := sx sc; sy := sy sc; sz := sz sc;
     pstep := pstep sc; dstep := dstep sc; opaque := o |}.

(** Python truthiness of a float. *)
Definition truthy (r : R) : bool := negb (Req_b r 0).

(** [Scene.make_opaque]. *)
Definition make_opaque (sc : Scene) (p : vec3) : result Scene :=
  mx <- pymod (px p) (pstep sc) ;;
  my <- pymod (py p) (pstep sc) ;;
  mz <- pymod (pz p) (pstep sc) ;;
  if truthy mx || truthy my || truthy mz then Err ValueError
  else Ok (with_opaque sc (set_add p (opaque sc))).

(** [x] is an exact multiple of [ps]. *)
Definition on_grid (ps x : R) : Prop := exists n : Z, x = IZR n * ps.

(** Every opaque voxel lies on the [pstep] lattice. *)
Definition aligned (sc : Scene) : Prop :=
  Forall (fun q => on_grid (pstep sc) (px q) /\ on_grid (pstep sc) (py q) /\
                   on_grid (pstep sc) (pz q)) (opaque sc).

(** [rho in [0, pi]]. *)
Definition is_pole (rho : R) : bool := Req_b rho 0 || Req_b rho PI.

(** The directions yielded for one non-opaque cell. *)
Definition cell_points (sc : Scene) (x y z : R) : result (list dpoint) :=
  rhos <- arange 0 (PI + dstep sc) (dstep sc) ;;
  flat_mapM (fun rho =>
    if is_pole rho then Ok [DPt x y z rho 0]
    else etas <- arange 0 (2 * PI) (dstep sc) ;;
         Ok (map (fun eta => DPt x y z rho eta) etas)) rhos.

(** [Scene.generate_points]: the generator, as the list it yields.  It is
    a function of the scene alone, so every call restarts it. *)
Definition generate_points (sc : Scene) : result (list dpoint) :=
  xs <- arange (fst (sx sc)) (snd (sx sc)) (pstep sc) ;;
  flat_mapM (fun x =>
    ys <- arange (fst (sy sc)) (snd (sy sc)) (pstep sc) ;;
    flat_mapM (fun y =>
      zs <- arange (fst (sz sc)) (snd (sz sc)) (pstep sc) ;;
      flat_mapM (fun z =>
        if mem (V3 x y z) (opaque sc) then Ok []
        else cell_points sc x y z) zs) ys) xs.

(** ** [Scene.occluded]: 6-connectivity voxel traversal *)

Definition upd (v : vec3) (i : nat) (a : R) : vec3 :=
  match i with
  | 0%nat => V3 a (py v) (pz v)
  | 1%nat => V3 (px v) a (pz v)
  | _ => V3 (px v) (py v) a
  end.

(** Python's [( b and v or 0 )]; for [v = 0] it yields [0] as well. *)
Definition sel (b : bool) (v : R) : R := if b then v else 0.

(** The values fixed by the setup part of [occluded]: [d], [s], the axis
    permutation [x, y, z], [P2], the error increments, the starting voxel
    [P] and the starting error terms [exy], [exz]. *)
Record occ_consts := {
  k_d : vec3;  k_s : vec3;
  k_x : nat;  k_y : nat;  k_z : nat;
  k_P2 : R;
  k_dxy : R;  k_d1xy : R;  k_dxz : R;  k_d1xz : R;
  k_P0 : vec3;  k_exy0 : R;  k_exz0 : R;
  k_opaque : list vec3 }.

(** [int(v / pstep) * pstep] on each axis: the grid voxel holding [v]. *)
Definition voxel (ps : R) (v : vec3) : vec3 :=
  V3 (IZR (pyint (px v / ps)) * ps) (IZR (pyint (py v / ps)) * ps)
     (IZR (pyint (pz v / ps)) * ps).

Definition occ_setup (sc : Scene) (p cam : vec3) : result occ_consts :=
  let ps := pstep sc in
  if Req_EM_T ps 0 then Err ZeroDivisionError else
  let d := V3 (Rabs (px p - px cam)) (Rabs (py p - py cam))
              (Rabs (pz p - pz cam)) in
  let u := V3 (px cam - IZR (pyint (px cam / ps)) * ps)
              (py cam - IZR (pyint (py cam / ps)) * ps)
              (pz cam - IZR (pyint (pz cam / ps)) * ps) in
  let si (i : nat) :=
    if Req_EM_T (get d i) 0 then ps
    else ps * (get p i - get cam i) / get d i in
  let s := V3 (si 0%nat) (si 1%nat) (si 2%nat) in
  let '(x, y, z) :=
    if Rlt_b (py d) (px d) && Rlt_b (pz d) (px d) then (0, 1, 2)%nat
    else if Rlt_b (px d) (py d) && Rlt_b (pz d) (py d) then (1, 2, 0)%nat
    else (2, 0, 1)%nat in
  let P := voxel ps cam in
  let P2 := IZR (pyint (get p x / ps)) * ps in
  let exy := (get u y - ps) * get d x + (ps - get u x) * get d y in
  let exz := (get u z - ps) * get d x + (ps - get u x) * get d z in
  let dxy := ps * get d y in
  let dxz := ps * get d z in
  Ok {| k_d := d; k_s := s; k_x := x; k_y := y; k_z := z; k_P2 := P2;
        k_dxy := dxy; k_d1xy := dxy - ps * get d x;
        k_dxz := dxz; k_d1xz := dxz - ps * get d x;
        k_P0 := P; k_exy0 := exy; k_exz0 := exz;
        k_opaque := opaque sc |}.

(** One pass of the [while] body: [None] is [return True], [Some st] the
    state [(P, exy, exz)] for the next test of the loop condition. *)
Definition body (k : occ_consts) (st : vec3 * R * R) : option (vec3 * R * R) :=
  let '(P, exy, exz) := st in
  let s := k_s k in
  let d := k_d k in
  let x := k_x k in
  let y := k_y k in
  let z := k_z k in
  let hit q := mem q (k_opaque k) in
  (* Point(P[0] + (i == 0 and s[0] or 0), P[1] + (i == 1 and s[1] or 0), ...) *)
  let step1 (i : nat) :=
    V3 (px P + sel (i =? 0)%nat (px s)) (py P + sel (i =? 1)%nat (py s))
       (pz P + sel (i =? 2)%nat (pz s)) in
  (* Point(P[0] + (i == 0 and s[0] or 0) + (j == 0 and s[0] or 0),
           P[1] + (i == 1 and s[0] or 0) + (j == 1 and s[0] or 0), ...) *)
  let corner (i j : nat) :=
    V3 (px P + sel (i =? 0)%nat (px s) + sel (j =? 0)%nat (px s))
       (py P + sel (i =? 1)%nat (px s) + sel (j =? 1)%nat (px s))
       (pz P + sel (i =? 2)%nat (px s) + sel (j =? 2)%nat (px s)) in
  if Rlt_b 0 exy then
    if Rlt_b 0 exz then
      if (if Rlt_b (exz * get d y) (exy * get d z) then hit (step1 y)
          else hit (step1 z)) then None
      else if hit (corner y z) then None
      else
        let P' := V3 (px P + px s) (py P + py s) (pz P + pz s) in
        if hit P' then None
        else Some (P', exy + k_d1xy k, exz + k_d1xz k)
    else
      if hit (step1 y) then None
      else if hit (corner x y) then None
      else
        let P' := upd P x (get P x + get s x) in
        let P'' := upd P' y (get P' y + get s y) in
        Some (P'', exy + k_d1xy k, exz + k_dxz k)
  else if Rlt_b 0 exz then
    if hit (step1 z) then None
    else if hit (corner x z) then None
    else
      let P' := upd P x (get P x + get s x) in
      let P'' := upd P' z (get P' z + get s z) in
      Some (P'', exy + k_dxy k, exz + k_d1xz k)
  else
    if hit (step1 x) then None
    else Some (upd P x (get P x + get s x), exy + k_dxy k, exz + k_dxz k).

(** The [while s[x] * P[x] < s[x] * P2] loop, with [fuel] bounding the
    number of tests of its condition ([None] when the fuel runs out). *)
Fixpoint loop (k : occ_consts) (fuel : nat) (st : vec3 * R * R) : option bool :=
  match fuel with
  | O => None
  | S n =>
      let '(P, _, _) := st in
      let sx := get (k_s k) (k_x k) in
      if Rlt_b (sx * get P (k_x k)) (sx * k_P2 k) then
        match body k st with
        | None => Some true
        | Some st' => loop k n st'
        end
      else Some false
  end.

Definition occluded_with (fuel : occ_consts -> nat) (sc : Scene) (p cam : vec3)
  : result bool :=
  k <- occ_setup sc p cam ;;
  if mem (k_P0 k) (k_opaque k) then Ok true
  else match loop k (fuel k) (k_P0 k, k_exy0 k, k_exz0 k) with
       | Some b => Ok b
       | None => Err OutOfFuel
       end.

(** The distance [s[x] * P2 - s[x] * P[x]] left at the start, in units of
    [pstep ^ 2]: an upper bound on the number of passes of the loop. *)
Definition occ_fuel (k : occ_consts) : nat :=
  let sx := get (k_s k) (k_x k) in
  let ps2 := sx * sx in
  S (Z.to_nat (up ((sx * k_P2 k - sx * get (k_P0 k) (k_x k)) / ps2))).

(** [Scene.occluded(p, cam)]. *)
Definition occluded (sc : Scene) (p cam : vec3) : result bool :=
  occluded_with occ_fuel sc p cam.

Fixpoint mapM {A B} (f : A -> result B) (l : list A) : result (list B) :=
  match l with
  | [] => Ok []
  | a :: t => b <- f a ;; bs <- mapM f t ;; Ok (b :: bs)
  end.

Definition Rle_b (a b : R) : bool := if Rle_dec a b then true else false.

(** ** Fuzzy sets *)

(** Modelled from the spec: [fuzz.TrapezoidalFuzzyNumber] (a library
    collaborator missing from src), per its glossary entry: 1 inside the
    kernel, 0 outside the support, linear on the two ramps between. *)
Record Trapezoid := { kernel : R * R;  support : R * R }.

Definition trap_mu (t : Trapezoid) (v : R) : R :=
  let '(k0, k1) := kernel t in
  let '(s0, s1) := support t in
  if Rle_b k0 v && Rle_b v k1 then 1
  else if Rlt_b s0 v && Rlt_b v k0 then (v - s0) / (k0 - s0)
  else if Rlt_b k1 v && Rlt_b v s1 then (s1 - v) / (s1 - k1)
  else 0.

(** Modelled from the spec: [fuzz.FuzzySet] of [FuzzyElement]s, keyed by
    point identity, as an association list from points to degrees. *)
Definition fset := list (dpoint * R).

Fixpoint fs_get (s : fset) (k : dpoint) : option R :=
  match s with
  | [] => None
  | (k', m) :: t => if dpoint_eq_dec k k' then Some m else fs_get t k
  end.

Definition fs_mem (s : fset) (k : dpoint) : bool :=
  match fs_get s k with Some _ => true | None => false end.

(** Fuzzy union [a | b]: pointwise maximum, keyed by point identity. *)
Definition fs_union (a b : fset) : fset :=
  map (fun '(k, m) =>
         match fs_get b k with Some m' => (k, Rmax m m') | None => (k, m) end) a
  ++ filter (fun '(k, _) => negb (fs_mem a k)) b.

(** Fuzzy intersection [a & b]: pointwise minimum over the shared points. *)
Definition fs_inter (a b : fset) : fset :=
  flat_map (fun '(k, m) =>
              match fs_get b k with Some m' => [(k, Rmin m m')] | None => [] end) a.

(** Degree of membership, [0] for a point that is not an element. *)
Definition fs_mu (s : fset) (k : dpoint) : R :=
  match fs_get s k with Some m => m | None => 0 end.

(** ** [Camera] and [MultiCamera] *)

Section Coverage.

(** Modelled from the spec: [geometry.Pose] (missing from src).  Only two
    operations of a pose are used: its translation [T] and the mapping
    [(-pose).map] into the camera frame; both are left abstract, so every
    result below holds for any implementation of them. *)
Variable Pose : Type.
Variable T : Pose -> vec3.
Variable neg_map : Pose -> dpoint -> dpoint.

(** The state of a [Camera] object used by [mu]: the fuzzy sets built by
    the constructor, the direction fuzzifier and the pose. *)
Record Camera := {
  name : string;
  Cvh : Trapezoid;  Cvv : Trapezoid;
  Cr : Trapezoid;  Cf : Trapezoid;
  zeta : R;
  pose : Pose }.

(** [Camera.mu]. *)
Definition mu (c : Camera) (dpoint : dpoint) : result R :=
  let campoint := neg_map (pose c) dpoint in
  let q := pos campoint in
  (* visibility *)
  let mu_v :=
    if Req_EM_T (pz q) 0 then 0
    else Rmin (trap_mu (Cvh c) (px q / pz q)) (trap_mu (Cvv c) (py q / pz q)) in
  (* resolution *)
  let mu_r := trap_mu (Cr c) (pz q) in
  (* focus *)
  let mu_f := trap_mu (Cf c) (pz q) in
  (* direction *)
  mu_d <-
    match campoint with
    | DPt x y z rho eta =>
        let r := sqrt (x ^ 2 + y ^ 2) in
        let terma := if Req_EM_T r 0 then 1
                     else (y / r) * sin eta + (x / r) * cos eta in
        let termb := if Req_EM_T z 0 then PI / 2 else atan (r / z) in
        if Req_EM_T (zeta c) 0 then Err ZeroDivisionError
        else Ok (Rmin (Rmax ((rho - (PI / 2 + terma * termb)) / zeta c) 0) 1)
    | Pt _ _ _ => Ok 1
    end ;;
  Ok (mu_v * mu_r * mu_f * mu_d).

(** A [MultiCamera] object: its scene, its [IndexedSet] of cameras, the
    in-scene dictionary (name to fuzzy set) and the network model. *)
Record MultiCamera := {
  scene : Scene;
  cams : list Camera;
  inscene : list (string * fset);
  model : fset }.

Definition dict_get (d : list (string * fset)) (key : string) : option fset :=
  match find (fun kv => String.eqb (fst kv) key) d with
  | Some (_, v) => Some v
  | None => None
  end.

(** [d[key] = v]. *)
Definition dict_set (d : list (string * fset)) (key : string) (v : fset)
  : list (string * fset) :=
  (key, v) :: filter (fun kv => negb (String.eqb (fst kv) key)) d.

(** [self[key]] on the [IndexedSet] of cameras, indexed by [name]. *)
Definition cam_get (cs : list Camera) (key : string) : result Camera :=
  match find (fun c => String.eqb (name c) key) cs with
  | Some c => Ok c
  | None => Err KeyError
  end.

(** [IndexedSet.add]: cameras are equal when their names are
    ([Camera.__eq__], [Camera.__hash__]), so as in a Python set an item
    equal to a member leaves the set unchanged. *)
Definition iset_add (c : Camera) (cs : list Camera) : list Camera :=
  if existsb (fun c' => String.eqb (name c') (name c)) cs then cs else cs ++ [c].

Definition with_cams (n : MultiCamera) (cs : list Camera) : MultiCamera :=
  {| scene := scene n; cams := cs; inscene := inscene n; model := model n |}.

Definition with_inscene n d : MultiCamera :=
  {| scene := scene n; cams := cams n; inscene := d; model := model n |}.

Definition with_model n m : MultiCamera :=
  {| scene := scene n; cams := cams n; inscene := inscene n; model := m |}.

(** [MultiCamera._update_inscene]. *)
Definition update_inscene (n : MultiCamera) (key : string) : result MultiCamera :=
  pts <- generate_points (scene n) ;;
  dpoints <- flat_mapM (fun dp =>
      c <- cam_get (cams n) key ;;
      m <- mu c dp ;;
      if Rlt_b 0 m then
        c' <- cam_get (cams n) key ;;
        o <- occluded (scene n) (pos dp) (T (pose c')) ;;
        if o then Ok [] else Ok [(dp, m)]
      else Ok []) pts ;;
  Ok (with_inscene n (dict_set (inscene n) key dpoints)).

(** [MultiCamera.add]. *)
Definition add (n : MultiCamera) (item : Camera) : result MultiCamera :=
  update_inscene (with_cams n (iset_add item (cams n))) (name item).

Definition inscene_of (n : MultiCamera) (c : Camera) : result fset :=
  match dict_get (inscene n) (name c) with
  | Some s => Ok s
  | None => Err KeyError
  end.

(** [MultiCameraSimple.update]. *)
Definition update_simple (n : MultiCamera) : result MultiCamera :=
  sets <- mapM (inscene_of n) (cams n) ;;
  Ok (with_model n (fold_left fs_union sets [])).

(** [itertools.combinations(l, 2)]. *)
Fixpoint combinations2 {A} (l : list A) : list (A * A) :=
  match l with
  | [] => []
  | a :: t => map (fun b => (a, b)) t ++ combinations2 t
  end.

(** [MultiCamera3D.update].  The pairwise intersections are collected in a
    list; the Python [set] around them only drops repeated fuzzy sets,
    which the (idempotent) union does not see. *)
Definition update_3d (n : MultiCamera) : result MultiCamera :=
  pts <- generate_points (scene n) ;;
  let model0 := map (fun dp => (dp, 0)) pts in
  pairs <- mapM (fun ab => sa <- inscene_of n (fst ab) ;;
                           sb <- inscene_of n (snd ab) ;;
                           Ok (fs_inter sa sb)) (combinations2 (cams n)) ;;
  Ok (with_model n (fold_left fs_union pairs model0)).

End Coverage.

Arguments name {Pose}.
Arguments Cvh {Pose}.
Arguments Cvv {Pose}.
Arguments Cr {Pose}.
Arguments Cf {Pose}.
Arguments zeta {Pose}.
Arguments pose {Pose}.
Arguments scene {Pose}.
Arguments cams {Pose}.
Arguments inscene {Pose}.
Arguments model {Pose}.
Arguments mu {Pose} neg_map c dpoint.
Arguments cam_get {Pose} cs key.
Arguments iset_add {Pose} c cs.
Arguments with_cams {Pose} n cs.
Arguments with_inscene {Pose} n d.
Arguments with_model {Pose} n m.
Arguments update_inscene {Pose} T neg_map n key.
Arguments add {Pose} T neg_map n item.
Arguments inscene_of {Pose} n c.
Arguments update_simple {Pose} n.
Arguments update_3d {Pose} n.

(** Python's float division [a / b], raising for [b = 0]. *)
Definition pydiv (a b : R) : result R :=
  if Req_EM_T b 0 then Err ZeroDivisionError else Ok (a / b).

(** [Camera.__init__]: the fuzzy sets for visibility, resolution and focus
    built from the intrinsic and application parameters.  The
    [TrapezoidalFuzzyNumber(kernel, support)] objects are the [Trapezoid]
    records above. *)
Definition camera_init {Pose} (name : string)
  (A f su sv ou ov w h zS gamma r1 r2 cmax zeta : R) (pose : Pose)
  : result (Camera Pose) :=
  (* fuzzy sets for visibility *)
  tl <- pydiv (ou * su) (2 * f) ;;
  tr <- pydiv ((w - ou) * su) (2 * f) ;;
  tb <- pydiv (ov * sv) (2 * f) ;;
  tp <- pydiv ((h - ov) * sv) (2 * f) ;;
  let ahl := 2 * atan tl in
  let ahr := 2 * atan tr in
  let avl := 2 * atan tb in
  let avr := 2 * atan tp in
  gw <- pydiv gamma w ;;
  let gamma_h := gw * 2 * sin ((ahl + ahr) / 2) in
  gh <- pydiv gamma h ;;
  let gamma_v := gh * 2 * sin ((avl + avr) / 2) in
  let Cvh := {| kernel := (- sin ahl + gamma_h, sin ahr - gamma_h);
                support := (- sin ahl, sin ahr) |} in
  let Cvv := {| kernel := (- sin avl + gamma_v, sin avr - gamma_v);
                support := (- sin avl, sin avr) |} in
  (* fuzzy set for resolution *)
  mh <- pydiv w (2 * sin ((ahl + ahr) / 2)) ;;
  mv <- pydiv h (2 * sin ((avl + avr) / 2)) ;;
  let mr := Rmin mh mv in
  i1 <- pydiv 1 r1 ;;
  let zr1 := i1 * mr in
  i2 <- pydiv 1 r2 ;;
  let zr2 := i2 * mr in
  let Cr := {| kernel := (0, zr1); support := (0, zr2) |} in
  (* fuzzy set for focus *)
  zl <- pydiv (A * f * zS) (A * f + Rmin su sv * (zS - f)) ;;
  zr <- pydiv (A * f * zS) (A * f - Rmin su sv * (zS - f)) ;;
  zn <- pydiv (A * f * zS) (A * f + cmax * (zS - f)) ;;
  zf <- pydiv (A * f * zS) (A * f - cmax * (zS - f)) ;;
  let Cf := {| kernel := (zl, zr); support := (zn, zf) |} in
  Ok {| name := name; Cvh := Cvh; Cvv := Cvv; Cr := Cr; Cf := Cf;
        zeta := zeta; pose := pose |}.

(** [for key in keys: self._update_inscene(key)]. *)
Fixpoint update_all {Pose} (T : Pose -> vec3) (neg_map : Pose -> dpoint -> dpoint)
  (n : MultiCamera Pose) (keys : list string) : result (MultiCamera Pose) :=
  match keys with
  | [] => Ok n
  | key :: t => n' <- update_inscene T neg_map n key ;; update_all T neg_map n' t
  end.

(** [MultiCamera.__init__] (as run by the subclasses): the [IndexedSet] of
    the given cameras (added one by one, [iset_add]), an empty model and
    in-scene dictionary, then [_update_inscene] for every camera. *)
Definition multicamera_init {Pose} (T : Pose -> vec3)
  (neg_map : Pose -> dpoint -> dpoint) (sc : Scene) (cameras : list (Camera Pose))
  : result (MultiCamera Pose) :=
  let cs := fold_left (fun cs c => iset_add c cs) cameras [] in
  update_all T neg_map {| scene := sc; cams := cs; inscene := []; model := [] |}
    (map name cs).

(** ** Pointwise reading of the fuzzy-set operations *)

(** The degree of a point in [a | b], as an [option] ([None]: not an
    element). *)
Definition omax (a b : option R) : option R :=
  match a, b with
  | Some x, Some y => Some (Rmax x y)
  | Some x, None => Some x
  | None, y => y
  end.

(** The degree of an optional membership: [0] for a non-element. *)
Definition odeg (o : option R) : R := match o with Some m => m | None => 0 end.

(** The degree of a point in [a & b]. *)
Definition oinf (a b : option R) : option R :=
  match a, b with
  | Some x, Some y => Some (Rmin x y)
  | _, _ => None
  end.

(** The degree of a point in the in-scene set cached for camera [c]. *)
Definition cache {Pose} (n : MultiCamera Pose) (c : Camera Pose) (dp : dpoint)
  : option R :=
  match dict_get (inscene n) (name c) with
  | Some s => fs_get s dp
  | None => None
  end.

(** * Properties *)

(** ** Occlusion traversal: setup, loop variant, termination *)

Ltac setup_cases H :=
  destruct (andb _ _); [|destruct (andb _ _)]; intro H;
  cbv beta iota zeta in H; injection H as <-.

Lemma setup_axes sc p cam k :
  occ_setup sc p cam = Ok k ->
  (k_x k, k_y k, k_z k) = (0, 1, 2)%nat \/ (k_x k, k_y k, k_z k) = (1, 2, 0)%nat \/
  (k_x k, k_y k, k_z k) = (2, 0, 1)%nat.
Proof.
  unfold occ_setup. destruct (Req_EM_T (pstep sc) 0); [discriminate|].
  setup_cases H; simpl; auto.
Qed.

Lemma setup_s_sq sc p cam k i :
  occ_setup sc p cam = Ok k ->
  get (k_s k) i * get (k_s k) i = pstep sc * pstep sc.
Proof.
  unfold occ_setup. destruct (Req_EM_T (pstep sc) 0) as [|Hps]; [discriminate|].
  assert (Hs : forall a b : R, (if Req_EM_T (Rabs (a - b)) 0 then pstep sc
      else pstep sc * (a - b) / Rabs (a - b)) *
      (if Req_EM_T (Rabs (a - b)) 0 then pstep sc
      else pstep sc * (a - b) / Rabs (a - b)) = pstep sc * pstep sc).
  { intros a b. destruct (Req_EM_T (Rabs (a - b)) 0) as [|Hd]; [reflexivity|].
    unfold Rabs in *. destruct (Rcase_abs (a - b)); field; lra. }
  setup_cases H; simpl; destruct i as [|[|[|i]]]; simpl; apply Hs.
Qed.

Lemma body_advances k st st' :
  (k_x k, k_y k, k_z k) = (0, 1, 2)%nat \/ (k_x k, k_y k, k_z k) = (1, 2, 0)%nat \/
  (k_x k, k_y k, k_z k) = (2, 0, 1)%nat ->
  body k st = Some st' ->
  get (fst (fst st')) (k_x k) = get (fst (fst st)) (k_x k) + get (k_s k) (k_x k).
Proof.
  intros Hax. destruct st as [[P exy] exz]. unfold body.
  destruct k; simpl in *. destruct Hax as [E|[E|E]]; injection E as -> -> ->;
  repeat (match goal with |- context [if ?b then _ else _] => destruct b end);
  intro H; try discriminate; injection H as <-; simpl; ring.
Qed.

Lemma loop_enough k :
  (k_x k, k_y k, k_z k) = (0, 1, 2)%nat \/ (k_x k, k_y k, k_z k) = (1, 2, 0)%nat \/
  (k_x k, k_y k, k_z k) = (2, 0, 1)%nat ->
  0 < get (k_s k) (k_x k) * get (k_s k) (k_x k) ->
  forall n st,
  get (k_s k) (k_x k) * k_P2 k - get (k_s k) (k_x k) * get (fst (fst st)) (k_x k)
    < INR n * (get (k_s k) (k_x k) * get (k_s k) (k_x k)) ->
  exists b, loop k (S n) st = Some b.
Proof.
  intros Hax Hq n. induction n as [|n IH]; intros [[P exy] exz] Hm;
    cbn [fst] in Hm; cbn [loop]; unfold Rlt_b.
  - change (INR 0) with 0 in Hm. destruct (Rlt_dec _ _); [lra | eauto].
  - destruct (Rlt_dec _ _); [|eauto].
    destruct (body k (P, exy, exz)) as [st'|] eqn:Eb; [|eauto].
    pose proof (body_advances k _ _ Hax Eb) as Hadv. simpl in Hadv.
    destruct (IH st') as [b Hb].
    + rewrite Hadv. rewrite S_INR in Hm. nra.
    + exists b. exact Hb.
Qed.

Lemma occ_fuel_enough k :
  0 < get (k_s k) (k_x k) * get (k_s k) (k_x k) ->
  get (k_s k) (k_x k) * k_P2 k - get (k_s k) (k_x k) * get (k_P0 k) (k_x k)
    < INR (Nat.pred (occ_fuel k)) * (get (k_s k) (k_x k) * get (k_s k) (k_x k)).
Proof.
  intros Hq. unfold occ_fuel. simpl Nat.pred.
  set (q := get (k_s k) (k_x k) * get (k_s k) (k_x k)) in *.
  set (m := _ - _).
  destruct (archimed (m / q)) as [Hup _].
  destruct (Z_le_gt_dec 0 (up (m / q))) as [Hz|Hz].
  - rewrite INR_IZR_INZ, Z2Nat.id by exact Hz.
    apply Rmult_lt_compat_r with (r := q) in Hup; [|exact Hq].
    unfold Rdiv in Hup. rewrite Rmult_assoc, Rinv_l in Hup by lra. lra.
  - replace (Z.to_nat (up (m / q))) with 0%nat
      by (destruct (up (m / q)); simpl; lia).
    simpl INR.
    apply Z.gt_lt, IZR_lt in Hz.
    assert (m / q < 0) by lra.
    assert (m < 0); [|lra].
    unfold Rdiv in *. 
    destruct (Rlt_le_dec m 0); [assumption|].
    assert (0 <= m * / q) by (apply Rmult_le_pos; [lra| left; apply Rinv_0_lt_compat; lra]). lra.
Qed.

Lemma setup_ok sc p cam :
  pstep sc <> 0 ->
  exists k, occ_setup sc p cam = Ok k /\ k_P0 k = voxel (pstep sc) cam /\
            k_opaque k = opaque sc.
Proof.
  intros Hps. unfold occ_setup. destruct (Req_EM_T (pstep sc) 0); [contradiction|].
  destruct (andb _ _); [|destruct (andb _ _)]; cbv beta iota zeta; eauto.
Qed.

Lemma occluded_ok (sc : Scene) (p cam : vec3) :
  0 < pstep sc -> exists b, occluded sc p cam = Ok b.
Proof.
  intros Hps. destruct (setup_ok sc p cam) as [k [Hk _]]; [lra|].
  unfold occluded, occluded_with. rewrite Hk. cbn [bind].
  destruct (mem _ _); [eauto|].
  assert (Hq : 0 < get (k_s k) (k_x k) * get (k_s k) (k_x k))
    by (rewrite (setup_s_sq _ _ _ _ _ Hk); nra).
  destruct (loop_enough k (setup_axes _ _ _ _ Hk) Hq _
              (k_P0 k, k_exy0 k, k_exz0 k) (occ_fuel_enough k Hq)) as [b Hb].
  change (occ_fuel k) with (S (Nat.pred (occ_fuel k))). rewrite Hb. eauto.
Qed.

(** Claim C10: for [pstep > 0], every pass of the traversal loop moves
    [P[x]] by [s[x]] and so raises [s[x] * P[x]] by exactly [pstep ^ 2];
    hence the loop exits and [occluded] returns a boolean on every input. *)
Theorem occluded_terminates (sc : Scene) (p cam : vec3) (Hps : 0 < pstep sc) :
  (forall k st st', occ_setup sc p cam = Ok k -> body k st = Some st' ->
     get (k_s k) (k_x k) * get (fst (fst st')) (k_x k) =
     get (k_s k) (k_x k) * get (fst (fst st)) (k_x k) + pstep sc * pstep sc) /\
  exists b, occluded sc p cam = Ok b.
Proof.
  split.
  - intros k st st' Hk Hb.
    rewrite (body_advances k st st' (setup_axes _ _ _ _ Hk) Hb).
    rewrite Rmult_plus_distr_l, (setup_s_sq _ _ _ _ _ Hk). reflexivity.
  - apply occluded_ok. exact Hps.
Qed.

(** Claim C9: when the voxel holding the origin [cam] is opaque,
    [occluded(p, cam)] returns [True] at once, whatever [p] is. *)
Theorem occluded_origin_voxel_opaque (sc : Scene) (p cam : vec3)
  (Hps : pstep sc <> 0)
  (Hcam : mem (voxel (pstep sc) cam) (opaque sc) = true) :
  occluded sc p cam = Ok true.
Proof.
  destruct (setup_ok sc p cam Hps) as [k [Hk [HP Ho]]].
  unfold occluded, occluded_with. rewrite Hk. cbn [bind].
  rewrite HP, Ho, Hcam. reflexivity.
Qed.

(** ** Evaluating the traversal on concrete inputs *)

Lemma pyint_of (r : R) (n : Z) :
  (0 <= n)%Z -> IZR n <= r < IZR n + 1 -> pyint r = n.
Proof.
  intros Hn [H1 H2]. apply IZR_le in Hn. unfold pyint.
  destruct (Rle_dec 0 r); [|lra].
  unfold Int_part. rewrite <- (tech_up r (n + 1)); [lia| |];
    rewrite plus_IZR; lra.
Qed.

Ltac no_if t :=
  lazymatch t with context [match _ with _ => _ end] => fail | _ => idtac end.

Ltac pyint_rw :=
  repeat match goal with
  | |- context [pyint ?r] => no_if r;
      first [ rewrite (pyint_of r 0) by first [lia | split; lra]
            | rewrite (pyint_of r 1) by first [lia | split; lra]
            | rewrite (pyint_of r 2) by first [lia | split; lra]
            | rewrite (pyint_of r 3) by first [lia | split; lra]
            | rewrite (pyint_of r 4) by first [lia | split; lra] ]
  end.

Ltac rdec :=
  repeat (cbn beta iota zeta; match goal with
  | |- context [Req_EM_T ?a ?b] => no_if a; no_if b;
      destruct (Req_EM_T a b); [try lra | try lra]
  | |- context [Rlt_dec ?a ?b] => no_if a; no_if b;
      destruct (Rlt_dec a b); [try lra | try lra]
  | |- context [Rle_dec ?a ?b] => no_if a; no_if b;
      destruct (Rle_dec a b); [try lra | try lra]
  | |- context [Rcase_abs ?a] => no_if a;
      destruct (Rcase_abs a); [try lra | try lra]
  end).

Lemma up_of (r : R) (n : Z) : IZR n - 1 <= r < IZR n -> up r = n.
Proof. intros [H1 H2]. symmetry. apply tech_up; lra. Qed.

Ltac up_rw :=
  repeat match goal with
  | |- context [up ?r] => no_if r;
      first [ rewrite (up_of r 1) by lra | rewrite (up_of r 2) by lra
            | rewrite (up_of r 3) by lra | rewrite (up_of r 4) by lra
            | rewrite (up_of r 5) by lra ]
  end.

Ltac nat_rw :=
  repeat match goal with
  | |- context [Z.to_nat ?z] =>
      let n := eval vm_compute in (Z.to_nat z) in change (Z.to_nat z) with n
  end.

Ltac simp :=
  cbn [andb orb negb existsb bind loop body sel Nat.eqb get upd px py pz fst snd
       k_d k_s k_x k_y k_z k_P2 k_dxy k_d1xy k_dxz k_d1xz k_P0 k_exy0 k_exz0
       k_opaque].

Ltac run_occ :=
  unfold occluded, occluded_with, occ_setup, voxel, occ_fuel;
  cbn [pstep opaque px py pz get fst snd];
  repeat progress (simp; unfold Rabs, Rlt_b, Req_b, Rle_b, mem, vec3_eqb;
                   pyint_rw; up_rw; nat_rw; rewrite ?Ropp_minus_distr in *; rdec);
  try reflexivity.

Lemma pymod_of (x m : R) (n : Z) :
  m <> 0 -> IZR n <= x / m < IZR n + 1 -> pymod x m = Ok (x - m * IZR n).
Proof.
  intros Hm [H1 H2]. unfold pymod. destruct (Req_EM_T m 0); [contradiction|].
  unfold Int_part. rewrite <- (tech_up (x / m) (n + 1)); [|rewrite plus_IZR; lra..].
  replace (n + 1 - 1)%Z with n by lia. reflexivity.
Qed.


(** Claim C1 (the code misses it): the segment from [(0.5, 0.5, 0.5)] to
    [(3.5, 3.5, 0.5)] runs through the voxel [(1, 1, 0)], neither endpoint
    voxel is opaque, and [make_opaque] accepts [(1, 1, 0)]; yet [occluded]
    answers [False] both before and after.  With [d[0] = d[1]] neither of
    the strict tests [d[0] > d[1]], [d[1] > d[0]] holds, so the driving
    axis falls to [z], along which the segment does not move, and the
    traversal loop never runs. *)
Theorem occluded_diagonal_blocker_missed :
  let sc0 := {| sx := (0, 4); sy := (0, 4); sz := (0, 1); pstep := 1;
                dstep := PI / 2; opaque := [] |} in
  let sc1 := {| sx := (0, 4); sy := (0, 4); sz := (0, 1); pstep := 1;
                dstep := PI / 2; opaque := [V3 1 1 0] |} in
  let cam := V3 (1/2) (1/2) (1/2) in
  let p := V3 (7/2) (7/2) (1/2) in
  (* the segment point cam + (p - cam) / 3 lies in the voxel (1, 1, 0) *)
  voxel 1 (V3 (1/2 + (7/2 - 1/2) / 3) (1/2 + (7/2 - 1/2) / 3) (1/2)) = V3 1 1 0 /\
  mem (voxel 1 cam) (opaque sc1) = false /\ mem (voxel 1 p) (opaque sc1) = false /\
  occluded sc0 p cam = Ok false /\
  make_opaque sc0 (V3 1 1 0) = Ok sc1 /\
  occluded sc1 p cam = Ok false.
Proof.
  intros sc0 sc1 cam p. subst sc0 sc1 cam p.
  split; [|split; [|split; [|split; [|split]]]].
  - unfold voxel. cbn [px py pz]. pyint_rw. f_equal; lra.
  - unfold voxel, mem, vec3_eqb, Req_b. cbn [px py pz opaque existsb]. pyint_rw.
    repeat (destruct (Req_EM_T _ _); try lra); try reflexivity.
  - unfold voxel, mem, vec3_eqb, Req_b. cbn [px py pz opaque existsb]. pyint_rw.
    repeat (destruct (Req_EM_T _ _); try lra); try reflexivity.
  - run_occ.
  - unfold make_opaque. cbn [px py pz pstep].
    rewrite (pymod_of 1 1 1), (pymod_of 0 1 0) by first [lra | split; lra].
    cbn [bind]. unfold truthy, Req_b.
    repeat (destruct (Req_EM_T _ _); try lra); try reflexivity.
  - run_occ.
Qed.

(** The corner voxel tests of the traversal offset every axis by [s[0]]
    (as in [P[1] + ( y == 1 and s[0] or 0 )]); when [s[0]] and [s[1]] differ
    in sign, the voxel the line enters diagonally is not tested.  The line
    from [(0.5, 3.5, 0.5)] to [(3.5, 1.5, 0.5)] passes through the voxel
    [(2, 2, 0)] (at [x = 2.5], [y = 2.17]) and is reported unoccluded,
    while its mirror image from [(0.5, 0.5, 0.5)] to [(3.5, 2.5, 0.5)],
    through the mirrored voxel [(2, 1, 0)], is reported occluded. *)
Lemma occluded_corner_offset_sign :
  occluded {| sx := (0, 4); sy := (0, 4); sz := (0, 1); pstep := 1;
              dstep := PI / 2; opaque := [V3 2 2 0] |}
    (V3 (7/2) (3/2) (1/2)) (V3 (1/2) (7/2) (1/2)) = Ok false /\
  occluded {| sx := (0, 4); sy := (0, 4); sz := (0, 1); pstep := 1;
              dstep := PI / 2; opaque := [V3 2 1 0] |}
    (V3 (7/2) (5/2) (1/2)) (V3 (1/2) (1/2) (1/2)) = Ok true.
Proof. split; run_occ. Qed.

(** A straight run along [x] through an opaque voxel is reported occluded,
    and without the voxel it is not. *)
Lemma occluded_axis_run :
  occluded {| sx := (0, 4); sy := (0, 4); sz := (0, 1); pstep := 1;
              dstep := PI / 2; opaque := [V3 2 0 0] |}
    (V3 (7/2) (1/2) (1/2)) (V3 (1/2) (1/2) (1/2)) = Ok true /\
  occluded {| sx := (0, 4); sy := (0, 4); sz := (0, 1); pstep := 1;
              dstep := PI / 2; opaque := [] |}
    (V3 (7/2) (1/2) (1/2)) (V3 (1/2) (1/2) (1/2)) = Ok false.
Proof. split; run_occ. Qed.

(** ** [make_opaque] and the lattice *)

Lemma Int_part_IZR (n : Z) : Int_part (IZR n) = n.
Proof.
  unfold Int_part. rewrite <- (tech_up (IZR n) (n + 1)); [lia| |];
    rewrite plus_IZR; lra.
Qed.

Lemma pymod_truthy (x m : R) (Hm : m <> 0) :
  exists r, pymod x m = Ok r /\ (truthy r = false <-> on_grid m x).
Proof.
  unfold pymod. destruct (Req_EM_T m 0) as [|_]; [contradiction|].
  eexists; split; [reflexivity|]. unfold truthy, Req_b.
  destruct (Req_EM_T _ 0) as [E|E]; simpl; split; intro H; try discriminate.
  - exists (Int_part (x / m)). lra.
  - reflexivity.
  - exfalso. apply E. destruct H as [n ->].
    replace (IZR n * m / m) with (IZR n) by (field; exact Hm).
    rewrite Int_part_IZR. ring.
Qed.

(** Claim C7: for a scene with [pstep <> 0], [make_opaque p] raises
    [ValueError] (adding nothing) when a coordinate of [p] is not an exact
    multiple of [pstep], and adds [p] to the opaque set when all three
    are; so the opaque set stays on the [pstep] lattice. *)
Theorem make_opaque_lattice (sc : Scene) (p : vec3) (Hps : pstep sc <> 0) :
  ((~ on_grid (pstep sc) (px p) \/ ~ on_grid (pstep sc) (py p) \/
    ~ on_grid (pstep sc) (pz p)) -> make_opaque sc p = Err ValueError) /\
  ((on_grid (pstep sc) (px p) /\ on_grid (pstep sc) (py p) /\
    on_grid (pstep sc) (pz p)) ->
   make_opaque sc p = Ok (with_opaque sc (set_add p (opaque sc))) /\
   mem p (set_add p (opaque sc)) = true) /\
  (forall sc', aligned sc -> make_opaque sc p = Ok sc' -> aligned sc').
Proof.
  destruct (pymod_truthy (px p) (pstep sc) Hps) as [rx [Hx Ix]].
  destruct (pymod_truthy (py p) (pstep sc) Hps) as [ry [Hy Iy]].
  destruct (pymod_truthy (pz p) (pstep sc) Hps) as [rz [Hz Iz]].
  unfold make_opaque. rewrite Hx, Hy, Hz. cbn [bind].
  split; [|split].
  - intros H.
    destruct (truthy rx) eqn:Tx; [reflexivity|].
    destruct (truthy ry) eqn:Ty; [reflexivity|].
    destruct (truthy rz) eqn:Tz; [reflexivity|].
    exfalso. destruct H as [H|[H|H]]; apply H; tauto.
  - intros (Gx & Gy & Gz).
    apply Ix in Gx. apply Iy in Gy. apply Iz in Gz. rewrite Gx, Gy, Gz.
    split; [reflexivity|].
    unfold set_add. destruct (mem p (opaque sc)) eqn:E; [exact E|].
    unfold mem, vec3_eqb, Req_b. simpl.
    destruct (Req_EM_T (px p) (px p)); [|congruence].
    destruct (Req_EM_T (py p) (py p)); [|congruence].
    destruct (Req_EM_T (pz p) (pz p)); [|congruence]. reflexivity.
  - intros sc' Hal H.
    destruct (truthy rx) eqn:Tx; [discriminate|].
    destruct (truthy ry) eqn:Ty; [discriminate|].
    destruct (truthy rz) eqn:Tz; [discriminate|].
    simpl in H. injection H as <-.
    unfold aligned in *. simpl. unfold set_add.
    destruct (mem p (opaque sc)); [exact Hal|].
    constructor; [|exact Hal]. tauto.
Qed.

(** A witness of [make_opaque_lattice] at [pstep = 1]: [(0.5, 0, 0)] is
    refused and [(1, 2, 0)] accepted. *)
Lemma make_opaque_lattice_witness :
  (1 <> 0 /\
   make_opaque {| sx := (0, 4); sy := (0, 4); sz := (0, 1); pstep := 1;
                  dstep := PI / 2; opaque := [] |} (V3 (1/2) 0 0) = Err ValueError) /\
  make_opaque {| sx := (0, 4); sy := (0, 4); sz := (0, 1); pstep := 1;
                 dstep := PI / 2; opaque := [] |} (V3 1 2 0) =
  Ok {| sx := (0, 4); sy := (0, 4); sz := (0, 1); pstep := 1;
        dstep := PI / 2; opaque := [V3 1 2 0] |}.
Proof.
  assert (H1 : (1:R) <> 0) by lra.
  pose proof (make_opaque_lattice
    {| sx := (0, 4); sy := (0, 4); sz := (0, 1); pstep := 1;
       dstep := PI / 2; opaque := [] |} (V3 (1/2) 0 0) H1) as [A _].
  pose proof (make_opaque_lattice
    {| sx := (0, 4); sy := (0, 4); sz := (0, 1); pstep := 1;
       dstep := PI / 2; opaque := [] |} (V3 1 2 0) H1) as [_ [B _]].
  split; [split; [exact H1|]|].
  - apply A. left. cbn [px pstep]. intros [n Hn].
    assert (Hlo : (0 < n)%Z) by (apply lt_IZR; lra).
    assert (Hhi : (n < 1)%Z) by (apply lt_IZR; lra). lia.
  - destruct B as [B _].
    + cbn [px py pz pstep]. split; [exists 1%Z|split; [exists 2%Z|exists 0%Z]]; lra.
    + rewrite B. reflexivity.
Defined.

(** Witness of [occluded_terminates] at [pstep = 1]. *)
Lemma occluded_terminates_witness :
  0 < 1 /\
  exists b, occluded {| sx := (0, 4); sy := (0, 4); sz := (0, 1); pstep := 1;
                        dstep := PI / 2; opaque := [V3 2 2 0] |}
              (V3 (7/2) (3/2) (1/2)) (V3 (1/2) (7/2) (1/2)) = Ok b.
Proof.
  assert (H : (0:R) < 1) by lra. split; [exact H|].
  exact (proj2 (occluded_terminates
    {| sx := (0, 4); sy := (0, 4); sz := (0, 1); pstep := 1;
       dstep := PI / 2; opaque := [V3 2 2 0] |}
    (V3 (7/2) (3/2) (1/2)) (V3 (1/2) (7/2) (1/2)) H)).
Defined.

(** Witness of [occluded_origin_voxel_opaque]: the origin [(0.5, 0.5, 0.5)]
    sits in the opaque voxel [(0, 0, 0)]. *)
Lemma occluded_origin_voxel_opaque_witness :
  1 <> 0 /\ mem (voxel 1 (V3 (1/2) (1/2) (1/2))) [V3 0 0 0] = true /\
  occluded {| sx := (0, 4); sy := (0, 4); sz := (0, 1); pstep := 1;
              dstep := PI / 2; opaque := [V3 0 0 0] |}
    (V3 (7/2) (7/2) (1/2)) (V3 (1/2) (1/2) (1/2)) = Ok true.
Proof.
  assert (H1 : (1:R) <> 0) by lra.
  assert (H2 : mem (voxel 1 (V3 (1/2) (1/2) (1/2))) [V3 0 0 0] = true).
  { unfold voxel, mem, vec3_eqb, Req_b. cbn [px py pz existsb]. pyint_rw.
    repeat (destruct (Req_EM_T _ _); try lra); reflexivity. }
  split; [exact H1|split; [exact H2|]].
  exact (occluded_origin_voxel_opaque
    {| sx := (0, 4); sy := (0, 4); sz := (0, 1); pstep := 1;
       dstep := PI / 2; opaque := [V3 0 0 0] |}
    (V3 (7/2) (7/2) (1/2)) (V3 (1/2) (1/2) (1/2)) H1 H2).
Defined.

(** ** [Camera.mu] *)

Lemma trap_mu_unit (t : Trapezoid) (v : R) : 0 <= trap_mu t v <= 1.
Proof.
  unfold trap_mu. destruct (kernel t) as [k0 k1], (support t) as [s0 s1].
  unfold Rle_b, Rlt_b.
  assert (Hr : forall a b, 0 < a < b -> 0 <= a / b <= 1).
  { intros a b [Ha Hb]. unfold Rdiv.
    assert (0 < / b) by (apply Rinv_0_lt_compat; lra).
    assert (b * / b = 1) by (field; lra). split; nra. }
  repeat (destruct (Rle_dec _ _); simpl); repeat (destruct (Rlt_dec _ _); simpl);
    try lra; apply Hr; lra.
Qed.

Lemma Rmin_unit (a b : R) : 0 <= a <= 1 -> 0 <= b <= 1 -> 0 <= Rmin a b <= 1.
Proof. intros. unfold Rmin. destruct (Rle_dec a b); lra. Qed.

Lemma Rclamp_unit (a : R) : 0 <= Rmin (Rmax a 0) 1 <= 1.
Proof.
  unfold Rmin, Rmax. destruct (Rle_dec a 0); destruct (Rle_dec _ 1); lra.
Qed.

Lemma prod_unit (a b c d : R) :
  0 <= a <= 1 -> 0 <= b <= 1 -> 0 <= c <= 1 -> 0 <= d <= 1 ->
  0 <= a * b * c * d <= 1.
Proof.
  intros Ha Hb Hc Hd.
  assert (0 <= a * b <= 1) by (split; nra).
  assert (0 <= a * b * c <= 1) by (split; nra).
  split; nra.
Qed.


(** Claim C2: [mu] evaluates the point in the camera frame
    ([(-pose).map]) and returns the product of the visibility degree (the
    minimum of [Cvh] at [x/z] and [Cvv] at [y/z]), [Cr(z)], [Cf(z)] and a
    direction degree; the product lies in [[0, 1]].  (A camera with
    [zeta = 0] raises [ZeroDivisionError] on directional points.) *)
Theorem mu_product_in_unit (Pose : Type) (neg_map : Pose -> dpoint -> dpoint)
  (c : Camera Pose) (dp : dpoint) (Hzeta : zeta c <> 0) :
  let q := pos (neg_map (pose c) dp) in
  exists v, mu neg_map c dp = Ok v /\ 0 <= v <= 1 /\
    exists md, 0 <= md <= 1 /\
      v = (if Req_EM_T (pz q) 0 then 0
           else Rmin (trap_mu (Cvh c) (px q / pz q))
                     (trap_mu (Cvv c) (py q / pz q)))
          * trap_mu (Cr c) (pz q) * trap_mu (Cf c) (pz q) * md.
Proof.
  intros q. unfold mu. fold q.
  set (mv := if Req_EM_T (pz q) 0 then 0 else _).
  assert (Hv : 0 <= mv <= 1).
  { subst mv. destruct (Req_EM_T _ _); [lra|]. apply Rmin_unit; apply trap_mu_unit. }
  pose proof (trap_mu_unit (Cr c) (pz q)).
  pose proof (trap_mu_unit (Cf c) (pz q)).
  destruct (neg_map (pose c) dp) as [x y z|x y z rho eta]; cbn [bind].
  - exists (mv * trap_mu (Cr c) (pz q) * trap_mu (Cf c) (pz q) * 1).
    split; [reflexivity|]. split; [apply prod_unit; auto; lra|].
    exists 1. split; [lra|reflexivity].
  - destruct (Req_EM_T (zeta c) 0) as [|_]; [contradiction|]. cbn [bind].
    eexists. split; [reflexivity|]. split; [apply prod_unit; auto; apply Rclamp_unit|].
    eexists. split; [apply Rclamp_unit|reflexivity].
Qed.

(** Claim C8: a point that lands on the plane [z = 0] of the camera frame
    (the optical centre included) gets visibility [0] instead of a
    [ZeroDivisionError], and [mu] returns [0]. *)
Theorem mu_zero_depth (Pose : Type) (neg_map : Pose -> dpoint -> dpoint)
  (c : Camera Pose) (dp : dpoint) (Hzeta : zeta c <> 0)
  (Hz : pz (pos (neg_map (pose c) dp)) = 0) :
  mu neg_map c dp = Ok 0.
Proof.
  unfold mu. cbv zeta. rewrite Hz.
  destruct (Req_EM_T 0 0) as [_|E]; [|contradiction].
  destruct (neg_map (pose c) dp); cbn [bind].
  - f_equal. ring.
  - destruct (Req_EM_T (zeta c) 0) as [|_]; [contradiction|].
    cbn [bind]. f_equal. ring.
Qed.

(** Witness of [mu_product_in_unit]: an identity pose, a camera with
    [zeta = 1] and a directional point. *)
Lemma mu_product_in_unit_witness :
  let tr := {| kernel := (1, 2); support := (0, 3) |} in
  let c := {| name := "c"; Cvh := tr; Cvv := tr; Cr := tr; Cf := tr;
              zeta := 1; pose := tt |} in
  zeta c <> 0 /\
  exists v, mu (fun (_ : unit) d => d) c (DPt 1 1 1 0 0) = Ok v /\ 0 <= v <= 1.
Proof.
  intros tr c. assert (H : zeta c <> 0) by (simpl; lra).
  split; [exact H|].
  destruct (mu_product_in_unit unit (fun _ d => d) c (DPt 1 1 1 0 0) H)
    as [v [Hv [Hu _]]].
  exists v. split; [exact Hv | exact Hu].
Defined.

(** Witness of [mu_zero_depth]: a point on the plane [z = 0]. *)
Lemma mu_zero_depth_witness :
  let tr := {| kernel := (1, 2); support := (0, 3) |} in
  let c := {| name := "c"; Cvh := tr; Cvv := tr; Cr := tr; Cf := tr;
              zeta := 1; pose := tt |} in
  zeta c <> 0 /\ pz (pos (DPt 1 1 0 0 0)) = 0 /\
  mu (fun (_ : unit) d => d) c (DPt 1 1 0 0 0) = Ok 0.
Proof.
  intros tr c. assert (H1 : zeta c <> 0) by (simpl; lra).
  assert (H2 : pz (pos (DPt 1 1 0 0 0)) = 0) by reflexivity.
  split; [exact H1|split; [exact H2|]].
  exact (mu_zero_depth unit (fun _ d => d) c (DPt 1 1 0 0 0) H1 H2).
Defined.

(** ** Fuzzy sets, pointwise *)

Lemma fs_get_app (l1 l2 : fset) k :
  fs_get (l1 ++ l2) k =
  match fs_get l1 k with Some m => Some m | None => fs_get l2 k end.
Proof.
  induction l1 as [|[k' m] t IH]; simpl; [reflexivity|].
  destruct (dpoint_eq_dec k k'); [reflexivity|exact IH].
Qed.

Lemma fs_get_union (a b : fset) k :
  fs_get (fs_union a b) k = omax (fs_get a k) (fs_get b k).
Proof.
  unfold fs_union. rewrite fs_get_app.
  assert (Hm : fs_get (map (fun '(k, m) =>
         match fs_get b k with Some m' => (k, Rmax m m') | None => (k, m) end) a) k
       = match fs_get a k with
         | Some m => Some (match fs_get b k with Some m' => Rmax m m' | None => m end)
         | None => None end).
  { induction a as [|[k' m] t IH]; simpl; [reflexivity|].
    destruct (fs_get b k') eqn:Eb; simpl;
      destruct (dpoint_eq_dec k k') as [->|]; rewrite ?Eb; auto. }
  assert (Hf : forall l, fs_get (filter (fun '(k, _) => negb (fs_mem a k)) l) k
                = if fs_mem a k then None else fs_get l k).
  { induction l as [|[k' m] t IH]; simpl; [destruct (fs_mem a k); reflexivity|].
    destruct (dpoint_eq_dec k k') as [->|Hne].
    - destruct (fs_mem a k') eqn:E; simpl; [exact IH|].
      destruct (dpoint_eq_dec k' k'); [reflexivity|contradiction].
    - destruct (fs_mem a k'); simpl; [exact IH|].
      destruct (dpoint_eq_dec k k'); [contradiction|exact IH]. }
  rewrite Hm, Hf. unfold fs_mem, omax.
  destruct (fs_get a k), (fs_get b k); reflexivity.
Qed.

Lemma fs_get_inter (a b : fset) k :
  fs_get (fs_inter a b) k = oinf (fs_get a k) (fs_get b k).
Proof.
  unfold fs_inter. induction a as [|[k' m] t IH]; simpl; [reflexivity|].
  destruct (fs_get b k') eqn:Eb; simpl.
  - destruct (dpoint_eq_dec k k') as [->|]; [rewrite Eb; reflexivity|exact IH].
  - rewrite IH. destruct (dpoint_eq_dec k k') as [->|]; [rewrite Eb|];
      unfold oinf; destruct (fs_get t _); try reflexivity;
      destruct (fs_get b k); reflexivity.
Qed.

Lemma fs_get_fold_union (sets : list fset) (s0 : fset) k :
  fs_get (fold_left fs_union sets s0) k =
  fold_left (fun acc s => omax acc (fs_get s k)) sets (fs_get s0 k).
Proof.
  revert s0. induction sets as [|s t IH]; intros s0; simpl; [reflexivity|].
  rewrite IH, fs_get_union. reflexivity.
Qed.

Lemma fs_get_zeros (pts : list dpoint) k :
  fs_get (map (fun dp => (dp, 0)) pts) k =
  if in_dec dpoint_eq_dec k pts then Some 0 else None.
Proof.
  induction pts as [|d t IH]; [reflexivity|]. cbn [map fs_get].
  destruct (in_dec dpoint_eq_dec k (d :: t)) as [i|n];
    destruct (dpoint_eq_dec k d) as [->|Hne]; try reflexivity.
  - rewrite IH. destruct (in_dec dpoint_eq_dec k t) as [|n]; [reflexivity|].
    exfalso. destruct i as [->|i]; [apply Hne; reflexivity|apply n; exact i].
  - exfalso. apply n. left. reflexivity.
  - rewrite IH. destruct (in_dec dpoint_eq_dec k t) as [i|]; [|reflexivity].
    exfalso. apply n. right. exact i.
Qed.

Lemma mapM_ok {A B} (f : A -> result B) (l : list A) :
  Forall (fun x => exists y, f x = Ok y) l ->
  exists ys, mapM f l = Ok ys /\ Forall2 (fun x y => f x = Ok y) l ys.
Proof.
  induction 1 as [|x t [y Hy] _ [ys [Hys H2]]]; simpl.
  - exists []. split; [reflexivity|constructor].
  - rewrite Hy. cbn [bind]. rewrite Hys. cbn [bind].
    exists (y :: ys). split; [reflexivity|constructor; assumption].
Qed.

Lemma fold_Forall2 {A B C} (P : A -> B -> Prop) (g : A -> C) (h : B -> C)
  (F : option R -> C -> option R) (la : list A) (lb : list B) acc :
  Forall2 (fun a b => g a = h b) la lb ->
  fold_left (fun acc b => F acc (h b)) lb acc =
  fold_left (fun acc a => F acc (g a)) la acc.
Proof.
  intros H2. revert acc. induction H2 as [|a b la lb E _ IH]; intros acc;
    simpl; [reflexivity|]. rewrite E. apply IH.
Qed.

Lemma fold_omax_two {A} (g : A -> option R) (a : R) (l : list A) acc :
  (forall x, In x l -> g x = None \/ g x = Some a) ->
  acc = None \/ acc = Some a ->
  fold_left (fun acc x => omax acc (g x)) l acc = None \/
  fold_left (fun acc x => omax acc (g x)) l acc = Some a.
Proof.
  revert acc. induction l as [|x t IH]; intros acc Hl Ha; simpl; [exact Ha|].
  apply IH; [intros y Hy; apply Hl; right; exact Hy|].
  destruct (Hl x (or_introl eq_refl)) as [-> | ->]; destruct Ha as [-> | ->];
    simpl; auto. right. unfold Rmax. destruct (Rle_dec a a); reflexivity.
Qed.

Lemma fold_omax_hit {A} (g : A -> option R) (a : R) (l : list A) acc :
  (forall x, In x l -> g x = None \/ g x = Some a) ->
  acc = None \/ acc = Some a ->
  (acc = Some a \/ exists x, In x l /\ g x = Some a) ->
  fold_left (fun acc x => omax acc (g x)) l acc = Some a.
Proof.
  revert acc. induction l as [|x t IH]; intros acc Hl Ha Hh; simpl.
  - destruct Hh as [->|[x [[] _]]]. reflexivity.
  - assert (Hx : g x = None \/ g x = Some a) by (apply Hl; left; reflexivity).
    assert (Hn : omax acc (g x) = None \/ omax acc (g x) = Some a).
    { destruct Hx as [-> | ->]; destruct Ha as [-> | ->]; simpl; auto.
      right. unfold Rmax. destruct (Rle_dec a a); reflexivity. }
    apply IH; [intros y Hy; apply Hl; right; exact Hy|exact Hn|].
    destruct Hh as [->|[y [[<-|Hy] Hg]]].
    + left. destruct Hx as [-> | ->]; simpl; [reflexivity|].
      unfold Rmax. destruct (Rle_dec a a); reflexivity.
    + left. rewrite Hg. destruct Ha as [-> | ->]; simpl; [reflexivity|].
      unfold Rmax. destruct (Rle_dec a a); reflexivity.
    + right. exists y. split; assumption.
Qed.

Lemma inscene_of_cache {Pose} (n : MultiCamera Pose) c s dp :
  inscene_of n c = Ok s -> cache n c dp = fs_get s dp.
Proof.
  unfold inscene_of, cache. destruct (dict_get _ _); [intros [= ->]; reflexivity|discriminate].
Qed.

Lemma cached_inscene_of {Pose} (n : MultiCamera Pose) c :
  dict_get (inscene n) (name c) <> None -> exists s, inscene_of n c = Ok s.
Proof.
  unfold inscene_of. destruct (dict_get _ _) as [s|]; [|contradiction].
  intros _. exists s. reflexivity.
Qed.

Lemma cache_name {Pose} (n : MultiCamera Pose) c c' dp :
  name c = name c' -> cache n c dp = cache n c' dp.
Proof. unfold cache. intros ->. reflexivity. Qed.

(** Claim C4: [MultiCameraSimple.update] makes the model the fuzzy union of
    the cameras' in-scene sets: the degree of a point is the maximum of its
    degrees in the sets that hold it.  A point held by camera [A]'s set and
    by no set of another camera gets exactly [A]'s degree. *)
Theorem update_simple_union {Pose} (n : MultiCamera Pose)
  (Hc : Forall (fun c => dict_get (inscene n) (name c) <> None) (cams n)) :
  exists n', update_simple n = Ok n' /\
    (forall dp, fs_get (model n') dp =
                fold_left (fun acc c => omax acc (cache n c dp)) (cams n) None) /\
    (forall cA a dp, In cA (cams n) -> cache n cA dp = Some a ->
       (forall c, In c (cams n) -> name c <> name cA -> cache n c dp = None) ->
       fs_get (model n') dp = Some a).
Proof.
  assert (Hall : Forall (fun c => exists s, inscene_of n c = Ok s) (cams n)).
  { eapply Forall_impl; [|exact Hc]. intros c. apply cached_inscene_of. }
  destruct (mapM_ok _ _ Hall) as [sets [Hm H2]].
  unfold update_simple. rewrite Hm. cbn [bind].
  eexists. split; [reflexivity|].
  assert (Hget : forall dp, fs_get (model (with_model n (fold_left fs_union sets []))) dp =
                fold_left (fun acc c => omax acc (cache n c dp)) (cams n) None).
  { intros dp. simpl. rewrite fs_get_fold_union. simpl.
    apply (fold_Forall2 (fun _ _ => True) (fun c => cache n c dp) (fun s => fs_get s dp)).
    eapply Forall2_impl; [|exact H2]. intros c s Hs. apply inscene_of_cache. exact Hs. }
  split; [exact Hget|].
  intros cA a dp HA Ha Hother. rewrite Hget.
  apply fold_omax_hit.
  - intros c Hin. destruct (string_dec (name c) (name cA)) as [E|E].
    + right. rewrite (cache_name n c cA dp E). exact Ha.
    + left. apply Hother; assumption.
  - left. reflexivity.
  - right. exists cA. split; assumption.
Qed.

(** Witness of [update_simple_union]: camera [a] holds the point with
    degree [1/2], camera [b] holds nothing; the network gets [1/2]. *)
Lemma update_simple_union_witness :
  let tr := {| kernel := (1, 2); support := (0, 3) |} in
  let ca := {| name := "a"; Cvh := tr; Cvv := tr; Cr := tr; Cf := tr;
               zeta := 1; pose := tt |} in
  let cb := {| name := "b"; Cvh := tr; Cvv := tr; Cr := tr; Cf := tr;
               zeta := 1; pose := tt |} in
  let n := {| scene := {| sx := (0, 1); sy := (0, 1); sz := (0, 1); pstep := 1;
                          dstep := PI; opaque := [] |};
              cams := [ca; cb];
              inscene := [("a"%string, [(DPt 0 0 1 0 0, 1/2)]); ("b"%string, [])];
              model := [] |} in
  Forall (fun c => dict_get (inscene n) (name c) <> None) (cams n) /\
  exists n', update_simple n = Ok n' /\ fs_get (model n') (DPt 0 0 1 0 0) = Some (1/2).
Proof.
  intros tr ca cb n.
  assert (Hc : Forall (fun c => dict_get (inscene n) (name c) <> None) (cams n))
    by (repeat constructor; simpl; discriminate).
  split; [exact Hc|].
  destruct (update_simple_union n Hc) as [n' [Hu [_ Hone]]].
  exists n'. split; [exact Hu|].
  apply (Hone ca (1/2) (DPt 0 0 1 0 0)).
  - left. reflexivity.
  - change (cache n ca (DPt 0 0 1 0 0))
      with (fs_get [(DPt 0 0 1 0 0, 1/2)] (DPt 0 0 1 0 0)).
    cbn [fs_get]. destruct (dpoint_eq_dec _ _) as [|E]; [reflexivity|].
    exfalso. apply E. reflexivity.
  - intros c [<-|[<-|[]]] Hn; [exfalso; apply Hn; reflexivity|reflexivity].
Defined.

(** ** [generate_points] succeeds on a scene with nonzero steps *)

Lemma flat_mapM_ok {A B} (f : A -> result (list B)) (l : list A) :
  (forall x, In x l -> exists y, f x = Ok y) ->
  exists ys, flat_mapM f l = Ok ys.
Proof.
  induction l as [|x t IH]; intros H; simpl; [eexists; reflexivity|].
  destruct (H x (or_introl eq_refl)) as [y ->]. cbn [bind].
  destruct IH as [ys ->]; [intros z Hz; apply H; right; exact Hz|].
  eexists. reflexivity.
Qed.

Lemma generate_points_ok (sc : Scene) :
  pstep sc <> 0 -> dstep sc <> 0 -> exists pts, generate_points sc = Ok pts.
Proof.
  intros Hp Hd. unfold generate_points, cell_points, arange.
  destruct (Req_EM_T (pstep sc) 0) as [|_]; [contradiction|].
  destruct (Req_EM_T (dstep sc) 0) as [|_]; [contradiction|]. cbn [bind].
  repeat (apply flat_mapM_ok; intros ? _).
  destruct (mem _ _); [eexists; reflexivity|].
  apply flat_mapM_ok. intros rho _.
  destruct (is_pole rho); eexists; reflexivity.
Qed.

(** ** Pairs of cameras *)

Lemma combinations2_in {A} (l : list A) a b :
  In (a, b) (combinations2 l) -> In a l /\ In b l.
Proof.
  induction l as [|x t IH]; simpl; [intros []|].
  intros H. apply in_app_or in H as [H|H].
  - apply in_map_iff in H as [y [[= <- <-] Hy]]. auto.
  - destruct (IH H). auto.
Qed.

Lemma combinations2_distinct {A B} (f : A -> B) (l : list A) a b :
  NoDup (map f l) -> In (a, b) (combinations2 l) -> f a <> f b.
Proof.
  induction l as [|x t IH]; simpl; [intros _ []|].
  intros Hnd H. inversion Hnd as [|? ? Hx Ht]; subst.
  apply in_app_or in H as [H|H].
  - apply in_map_iff in H as [y [[= <- <-] Hy]].
    intros E. apply Hx. rewrite E. apply in_map. exact Hy.
  - apply IH; assumption.
Qed.

(** Claim C3: [MultiCamera3D.update] starts from every generated point at
    degree [0] and adds the fuzzy union, over the unordered pairs of
    cameras, of the fuzzy intersections of the two in-scene sets.  With
    camera names unique (as the [IndexedSet] keeps them), a point of degree
    [1] for camera [A] and of degree [0] (or absent) for every other camera
    gets network degree [0]. *)
Theorem update_3d_pairwise {Pose} (n : MultiCamera Pose)
  (Hps : pstep (scene n) <> 0) (Hds : dstep (scene n) <> 0)
  (Hc : Forall (fun c => dict_get (inscene n) (name c) <> None) (cams n)) :
  exists pts n', generate_points (scene n) = Ok pts /\ update_3d n = Ok n' /\
    (forall dp, fs_get (model n') dp =
       fold_left (fun acc ab => omax acc (oinf (cache n (fst ab) dp)
                                               (cache n (snd ab) dp)))
         (combinations2 (cams n))
         (if in_dec dpoint_eq_dec dp pts then Some 0 else None)) /\
    (NoDup (map name (cams n)) ->
     forall cA dp, In cA (cams n) -> cache n cA dp = Some 1 ->
       (forall c, In c (cams n) -> name c <> name cA ->
                  cache n c dp = None \/ cache n c dp = Some 0) ->
       fs_mu (model n') dp = 0).
Proof.
  destruct (generate_points_ok _ Hps Hds) as [pts Hg].
  set (f := fun ab : Camera Pose * Camera Pose =>
              sa <- inscene_of n (fst ab) ;; sb <- inscene_of n (snd ab) ;;
              Ok (fs_inter sa sb)).
  assert (Hall : Forall (fun ab => exists y, f ab = Ok y) (combinations2 (cams n))).
  { apply Forall_forall. intros [a b] Hab.
    destruct (combinations2_in _ _ _ Hab) as [Ha Hb].
    rewrite Forall_forall in Hc.
    destruct (cached_inscene_of n a (Hc a Ha)) as [sa Esa].
    destruct (cached_inscene_of n b (Hc b Hb)) as [sb Esb].
    exists (fs_inter sa sb). subst f. cbn [fst snd]. rewrite Esa, Esb. reflexivity. }
  destruct (mapM_ok _ _ Hall) as [pairs [Hm H2]].
  exists pts. unfold update_3d. rewrite Hg. cbn [bind]. fold f. rewrite Hm. cbn [bind].
  eexists. split; [reflexivity|]. split; [reflexivity|].
  assert (Hget : forall dp,
    fs_get (model (with_model n (fold_left fs_union pairs
                                   (map (fun dp => (dp, 0)) pts)))) dp =
    fold_left (fun acc ab => omax acc (oinf (cache n (fst ab) dp)
                                            (cache n (snd ab) dp)))
      (combinations2 (cams n))
      (if in_dec dpoint_eq_dec dp pts then Some 0 else None)).
  { intros dp. simpl. rewrite fs_get_fold_union, fs_get_zeros.
    apply (fold_Forall2 (fun _ _ => True)
             (fun ab => oinf (cache n (fst ab) dp) (cache n (snd ab) dp))
             (fun s => fs_get s dp)).
    eapply Forall2_impl; [|exact H2]. intros [a b] s Hs. subst f. cbn [fst snd] in *.
    destruct (inscene_of n a) as [sa|] eqn:Ea; [|discriminate]. cbn [bind] in Hs.
    destruct (inscene_of n b) as [sb|] eqn:Eb; [|discriminate]. cbn [bind] in Hs.
    injection Hs as <-. rewrite fs_get_inter.
    rewrite (inscene_of_cache n a sa dp Ea), (inscene_of_cache n b sb dp Eb).
    reflexivity. }
  split; [exact Hget|].
  intros Hnd cA dp HA H1 Hother. unfold fs_mu. rewrite Hget.
  assert (Hcam : forall c, In c (cams n) ->
            (name c = name cA /\ cache n c dp = Some 1) \/
            (name c <> name cA /\ (cache n c dp = None \/ cache n c dp = Some 0))).
  { intros c Hin. destruct (string_dec (name c) (name cA)) as [E|E].
    - left. split; [exact E|]. rewrite (cache_name n c cA dp E). exact H1.
    - right. split; [exact E|]. apply Hother; assumption. }
  destruct (fold_omax_two (fun ab => oinf (cache n (fst ab) dp) (cache n (snd ab) dp))
              0 (combinations2 (cams n))
              (if in_dec dpoint_eq_dec dp pts then Some 0 else None)) as [-> | ->];
    [| |reflexivity|reflexivity].
  - intros [a b] Hab. cbn [fst snd].
    destruct (combinations2_in _ _ _ Hab) as [Ha Hb].
    pose proof (combinations2_distinct name _ _ _ Hnd Hab) as Hab'.
    destruct (Hcam a Ha) as [[Ea Ca]|[Ea [Ca|Ca]]];
      destruct (Hcam b Hb) as [[Eb Cb]|[Eb [Cb|Cb]]];
      rewrite Ca, Cb; simpl; auto; try (exfalso; congruence);
      right; f_equal; unfold Rmin; destruct (Rle_dec _ _); lra.
  - destruct (in_dec _ _ _); auto.
Qed.

(** Witness of [update_3d_pairwise]: camera [a] holds the point with degree
    [1], camera [b] with degree [0]; the network gets [0]. *)
Lemma update_3d_pairwise_witness :
  let tr := {| kernel := (1, 2); support := (0, 3) |} in
  let ca := {| name := "a"; Cvh := tr; Cvv := tr; Cr := tr; Cf := tr;
               zeta := 1; pose := tt |} in
  let cb := {| name := "b"; Cvh := tr; Cvv := tr; Cr := tr; Cf := tr;
               zeta := 1; pose := tt |} in
  let n := {| scene := {| sx := (0, 1); sy := (0, 1); sz := (0, 1); pstep := 1;
                          dstep := PI; opaque := [] |};
              cams := [ca; cb];
              inscene := [("a"%string, [(DPt 0 0 1 0 0, 1)]);
                          ("b"%string, [(DPt 0 0 1 0 0, 0)])];
              model := [] |} in
  pstep (scene n) <> 0 /\ dstep (scene n) <> 0 /\
  Forall (fun c => dict_get (inscene n) (name c) <> None) (cams n) /\
  exists n', update_3d n = Ok n' /\ fs_mu (model n') (DPt 0 0 1 0 0) = 0.
Proof.
  intros tr ca cb n.
  assert (Hp : pstep (scene n) <> 0) by (simpl; lra).
  assert (Hd : dstep (scene n) <> 0) by (simpl; apply PI_neq0).
  assert (Hc : Forall (fun c => dict_get (inscene n) (name c) <> None) (cams n))
    by (repeat constructor; simpl; discriminate).
  split; [exact Hp|split; [exact Hd|split; [exact Hc|]]].
  destruct (update_3d_pairwise n Hp Hd Hc) as [pts [n' [_ [Hu [_ Hz]]]]].
  exists n'. split; [exact Hu|].
  apply (Hz ltac:(repeat constructor; simpl; intuition discriminate) ca).
  - left. reflexivity.
  - change (cache n ca (DPt 0 0 1 0 0))
      with (fs_get [(DPt 0 0 1 0 0, 1)] (DPt 0 0 1 0 0)).
    cbn [fs_get]. destruct (dpoint_eq_dec _ _) as [|E]; [reflexivity|].
    exfalso. apply E. reflexivity.
  - intros c [<-|[<-|[]]] Hn; [exfalso; apply Hn; reflexivity|right].
    change (cache n cb (DPt 0 0 1 0 0))
      with (fs_get [(DPt 0 0 1 0 0, 0)] (DPt 0 0 1 0 0)).
    cbn [fs_get]. destruct (dpoint_eq_dec _ _) as [|E]; [reflexivity|].
    exfalso. apply E. reflexivity.
Defined.

(** ** [MultiCamera.add] *)

Lemma flat_mapM_in {A B} (f : A -> result (list B)) (l : list A) :
  (forall x, In x l -> exists y, f x = Ok y) ->
  exists ys, flat_mapM f l = Ok ys /\
    forall z, In z ys <-> exists x y, In x l /\ f x = Ok y /\ In z y.
Proof.
  induction l as [|a t IH]; intros H; simpl.
  - exists []. split; [reflexivity|]. intros z. split; [intros []|].
    intros (x & y & [] & _).
  - destruct (H a (or_introl eq_refl)) as [y Hy]. rewrite Hy. cbn [bind].
    destruct IH as [ys [Hys Hin]]; [intros z Hz; apply H; right; exact Hz|].
    rewrite Hys. cbn [bind]. exists (y ++ ys). split; [reflexivity|].
    intros z. rewrite in_app_iff, Hin. split.
    + intros [Hz|(x & y' & Hx & Hf & Hz)].
      * exists a, y. auto.
      * exists x, y'. auto.
    + intros (x & y' & [<-|Hx] & Hf & Hz).
      * left. rewrite Hy in Hf. injection Hf as <-. exact Hz.
      * right. exists x, y'. auto.
Qed.

Lemma mu_ok {Pose} (neg_map : Pose -> dpoint -> dpoint) (c : Camera Pose) dp :
  zeta c <> 0 -> exists v, mu neg_map c dp = Ok v.
Proof.
  intros Hz. unfold mu. destruct (neg_map (pose c) dp); cbn [bind]; [eauto|].
  destruct (Req_EM_T (zeta c) 0); [contradiction|]. cbn [bind]. eauto.
Qed.

Lemma cam_get_last {Pose} (cs : list (Camera Pose)) (c : Camera Pose) :
  (forall c', In c' cs -> name c' <> name c) -> cam_get (cs ++ [c]) (name c) = Ok c.
Proof.
  unfold cam_get. induction cs as [|c' t IH]; intros H; simpl.
  - rewrite String.eqb_refl. reflexivity.
  - destruct (String.eqb (name c') (name c)) eqn:E.
    + apply String.eqb_eq in E. exfalso. exact (H c' (or_introl eq_refl) E).
    + apply IH. intros c'' Hc''. apply H. right. exact Hc''.
Qed.

Lemma iset_add_fresh {Pose} (cs : list (Camera Pose)) (c : Camera Pose) :
  (forall c', In c' cs -> name c' <> name c) -> iset_add c cs = cs ++ [c].
Proof.
  intros H. unfold iset_add.
  destruct (existsb _ cs) eqn:E; [|reflexivity].
  apply existsb_exists in E as [c' [Hin Heq]]. apply String.eqb_eq in Heq.
  exfalso. exact (H c' Hin Heq).
Qed.

Lemma dict_get_set d key v : dict_get (dict_set d key v) key = Some v.
Proof. unfold dict_get, dict_set. simpl. rewrite String.eqb_refl. reflexivity. Qed.

Lemma iset_add_mem {Pose} (cs : list (Camera Pose)) (c : Camera Pose) :
  In c cs -> iset_add c cs = cs.
Proof.
  intros Hin. unfold iset_add.
  assert (E : existsb (fun c' => String.eqb (name c') (name c)) cs = true)
    by (apply existsb_exists; exists c; rewrite String.eqb_refl; auto).
  rewrite E. reflexivity.
Qed.

Lemma NoDup_map_same {A B} (f : A -> B) (l : list A) x y :
  NoDup (map f l) -> In x l -> In y l -> f x = f y -> x = y.
Proof.
  induction l as [|a t IH]; [intros _ []|]. cbn [map].
  intros Hnd Hx Hy Hf. inversion Hnd as [|? ? Hna Hnd']; subst.
  destruct Hx as [<-|Hx], Hy as [<-|Hy]; [reflexivity| | |exact (IH Hnd' Hx Hy Hf)].
  - exfalso. apply Hna. rewrite Hf. apply in_map. exact Hy.
  - exfalso. apply Hna. rewrite <- Hf. apply in_map. exact Hx.
Qed.

(** With unique names, [self[name]] finds the camera itself. *)
Lemma cam_get_unique {Pose} (cs : list (Camera Pose)) (c : Camera Pose) :
  In c cs -> NoDup (map name cs) -> cam_get cs (name c) = Ok c.
Proof.
  intros Hin Hnd. unfold cam_get.
  destruct (find (fun c' => String.eqb (name c') (name c)) cs) as [c'|] eqn:E.
  - apply find_some in E as [Hin' Heq]. apply String.eqb_eq in Heq.
    rewrite (NoDup_map_same name cs c' c Hnd Hin' Hin Heq). reflexivity.
  - exfalso. apply (find_none _ _ E) in Hin. rewrite String.eqb_refl in Hin.
    discriminate.
Qed.

(** Claim C6: adding a camera runs [_update_inscene] over the whole of
    [generate_points()] at once, both for a camera whose name is new to
    the network (it is appended) and for a camera already in the network
    (re-added, e.g. after a pose change, with camera names unique); the
    cached set then holds exactly the generated points [dp] with
    [mu(dp) > 0] that are not occluded from the camera's translation
    [T(pose)], each with degree [mu(dp)]. *)
Theorem add_updates_inscene {Pose} (T : Pose -> vec3)
  (neg_map : Pose -> dpoint -> dpoint) (n : MultiCamera Pose) (c : Camera Pose)
  (Hps : 0 < pstep (scene n)) (Hds : dstep (scene n) <> 0) (Hz : zeta c <> 0)
  (Hc : (forall c', In c' (cams n) -> name c' <> name c) \/
        (In c (cams n) /\ NoDup (map name (cams n)))) :
  exists pts n', generate_points (scene n) = Ok pts /\
    add T neg_map n c = Ok n' /\
    ((forall c', In c' (cams n) -> name c' <> name c) -> cams n' = cams n ++ [c]) /\
    (In c (cams n) -> cams n' = cams n) /\ scene n' = scene n /\
    exists S, dict_get (inscene n') (name c) = Some S /\
      forall dp m, In (dp, m) S <->
        In dp pts /\ mu neg_map c dp = Ok m /\ 0 < m /\
        occluded (scene n) (pos dp) (T (pose c)) = Ok false.
Proof.
  destruct (generate_points_ok (scene n)) as [pts Hg]; [lra|exact Hds|].
  assert (Hget : cam_get (iset_add c (cams n)) (name c) = Ok c).
  { destruct Hc as [Hf|[Hin Hnd]].
    - rewrite (iset_add_fresh _ _ Hf). apply cam_get_last. exact Hf.
    - rewrite (iset_add_mem _ _ Hin). apply cam_get_unique; assumption. }
  exists pts. unfold add, update_inscene.
  cbn [scene with_cams]. rewrite Hg. cbn [bind cams with_cams].
  rewrite Hget. cbn [bind].
  set (g := fun dp => m <- mu neg_map c dp ;;
                      if Rlt_b 0 m then
                        o <- occluded (scene n) (pos dp) (T (pose c)) ;;
                        if o then Ok [] else Ok [(dp, m)]
                      else Ok []).
  assert (Hgok : forall dp, In dp pts -> exists y, g dp = Ok y).
  { intros dp _. subst g. destruct (mu_ok neg_map c dp Hz) as [m ->]. cbn [bind].
    destruct (Rlt_b 0 m); [|eauto].
    destruct (occluded_ok (scene n) (pos dp) (T (pose c)) Hps) as [b ->].
    cbn [bind]. destruct b; eauto. }
  destruct (flat_mapM_in g pts Hgok) as [S [HS Hin]].
  fold g. rewrite HS. cbn [bind].
  eexists. split; [reflexivity|]. split; [reflexivity|].
  split; [intros Hf; cbn [cams with_inscene with_cams]; apply iset_add_fresh; exact Hf|].
  split; [intros Hm; cbn [cams with_inscene with_cams]; apply iset_add_mem; exact Hm|].
  split; [reflexivity|].
  exists S. split; [apply dict_get_set|].
  intros dp m. rewrite Hin. split.
  - intros (x & y & Hx & Hgx & Hxy). subst g. cbv beta in Hgx.
    destruct (mu_ok neg_map c x Hz) as [v Hv]. rewrite Hv in Hgx. cbn [bind] in Hgx.
    unfold Rlt_b in Hgx. destruct (Rlt_dec 0 v) as [Hlt|]; [|injection Hgx as <-; destruct Hxy].
    destruct (occluded_ok (scene n) (pos x) (T (pose c)) Hps) as [b Hb].
    rewrite Hb in Hgx. cbn [bind] in Hgx.
    destruct b; injection Hgx as <-; [destruct Hxy|].
    destruct Hxy as [[= <- <-]|[]]. auto.
  - intros (Hdp & Hm & Hlt & Ho). exists dp, [(dp, m)].
    split; [exact Hdp|]. split; [|left; reflexivity].
    subst g. cbv beta. rewrite Hm. cbn [bind]. unfold Rlt_b.
    destruct (Rlt_dec 0 m); [|contradiction]. rewrite Ho. reflexivity.
Qed.

(** Witness of [add_updates_inscene]: a camera re-added to the network it
    is already in. *)
Lemma add_updates_inscene_witness :
  let tr := {| kernel := (1, 2); support := (0, 3) |} in
  let c := {| name := "a"; Cvh := tr; Cvv := tr; Cr := tr; Cf := tr;
              zeta := 1; pose := tt |} in
  let n := {| scene := {| sx := (0, 1); sy := (0, 1); sz := (0, 1); pstep := 1;
                          dstep := PI; opaque := [] |};
              cams := [c]; inscene := []; model := [] |} in
  0 < pstep (scene n) /\ dstep (scene n) <> 0 /\ zeta c <> 0 /\
  (In c (cams n) /\ NoDup (map name (cams n))) /\
  exists n', add (fun _ => V3 (1/2) (1/2) (1/2)) (fun _ d => d) n c = Ok n' /\
             cams n' = [c].
Proof.
  intros tr c n.
  assert (H1 : 0 < pstep (scene n)) by (simpl; lra).
  assert (H2 : dstep (scene n) <> 0) by (simpl; apply PI_neq0).
  assert (H3 : zeta c <> 0) by (simpl; lra).
  assert (H4 : In c (cams n) /\ NoDup (map name (cams n)))
    by (split; [left; reflexivity|repeat constructor; intros []]).
  split; [exact H1|split; [exact H2|split; [exact H3|split; [exact H4|]]]].
  destruct (add_updates_inscene (fun _ => V3 (1/2) (1/2) (1/2)) (fun _ d => d)
              n c H1 H2 H3 (or_intror H4)) as [pts [n' [_ [Ha [_ [Hc _]]]]]].
  exists n'. split; [exact Ha|exact (Hc (proj1 H4))].
Defined.

(** ** [Scene.generate_points] *)













(** ** More of [Scene.occluded] *)

Local Abbreviation kop k O :=
  {| k_d := k_d k; k_s := k_s k; k_x := k_x k; k_y := k_y k; k_z := k_z k;
     k_P2 := k_P2 k; k_dxy := k_dxy k; k_d1xy := k_d1xy k; k_dxz := k_dxz k;
     k_d1xz := k_d1xz k; k_P0 := k_P0 k; k_exy0 := k_exy0 k; k_exz0 := k_exz0 k;
     k_opaque := O |}.

Lemma setup_with_opaque sc O p cam k :
  occ_setup sc p cam = Ok k -> occ_setup (with_opaque sc O) p cam = Ok (kop k O).
Proof.
  unfold occ_setup. cbn [with_opaque pstep opaque].
  destruct (Req_EM_T (pstep sc) 0); [discriminate|].
  destruct (andb _ _); [|destruct (andb _ _)]; intro H;
    cbv beta iota zeta in H |- *; injection H as <-; reflexivity.
Qed.

Lemma body_mono k O st :
  (forall q, mem q (k_opaque k) = true -> mem q O = true) ->
  (body k st = None -> body (kop k O) st = None) /\
  (forall st', body k st = Some st' ->
     body (kop k O) st = None \/ body (kop k O) st = Some st').
Proof.
  intros Hsub. destruct st as [[P exy] exz]. unfold body.
  cbv beta iota zeta.
  cbn [k_s k_d k_x k_y k_z k_opaque k_dxy k_d1xy k_dxz k_d1xz].
  repeat match goal with
  | |- context [mem ?q (k_opaque k)] =>
      let E := fresh "E" in
      destruct (mem q (k_opaque k)) eqn:E; [rewrite (Hsub q E)|]
  end;
  repeat match goal with
  | |- context [if ?b then _ else _] =>
      lazymatch b with context [if _ then _ else _] => fail | _ => idtac end;
      destruct b
  end;
  split; intros; try discriminate; auto.
Qed.

Lemma loop_mono k O n st :
  (forall q, mem q (k_opaque k) = true -> mem q O = true) ->
  loop k n st = Some true -> loop (kop k O) n st = Some true.
Proof.
  intros Hsub. revert st. induction n as [|n IH]; intros st; [discriminate|].
  destruct st as [[P exy] exz]. cbn [loop k_s k_x k_P2].
  destruct (Rlt_b _ _); [|discriminate].
  destruct (body_mono k O (P, exy, exz) Hsub) as [Hn Hs].
  destruct (body k (P, exy, exz)) as [st'|] eqn:Eb.
  - intros H. destruct (Hs st' eq_refl) as [-> | ->]; [reflexivity|]. apply IH, H.
  - intros _. rewrite (Hn eq_refl). reflexivity.
Qed.

Lemma loop_never_true k n st :
  (forall st, body k st <> None) -> loop k n st <> Some true.
Proof.
  intros Hb. revert st. induction n as [|n IH]; intros st; [discriminate|].
  destruct st as [[P exy] exz]. cbn [loop].
  destruct (Rlt_b _ _); [|discriminate].
  destruct (body k (P, exy, exz)) eqn:E; [apply IH|exfalso; exact (Hb _ E)].
Qed.

Lemma body_no_opaque k st : k_opaque k = [] -> body k st <> None.
Proof.
  intros Ho. destruct st as [[P exy] exz]. unfold body. cbv beta iota zeta.
  rewrite Ho. cbn [mem existsb].
  repeat match goal with
  | |- context [if ?b then _ else _] =>
      lazymatch b with context [if _ then _ else _] => fail | _ => idtac end;
      destruct b
  end; discriminate.
Qed.

Lemma setup_P2 sc p cam k :
  occ_setup sc p cam = Ok k -> k_P2 k = get (voxel (pstep sc) p) (k_x k).
Proof.
  unfold occ_setup. destruct (Req_EM_T (pstep sc) 0); [discriminate|].
  setup_cases H; reflexivity.
Qed.

(** An empty set of opaque voxels (as [Scene.__init__] leaves it) blocks
    no segment: for [pstep > 0], [occluded] returns [False]. *)
Theorem occluded_no_opaque (sc : Scene) (p cam : vec3)
  (Hps : 0 < pstep sc) (Ho : opaque sc = []) :
  occluded sc p cam = Ok false.
Proof.
  destruct (occluded_ok sc p cam Hps) as [b Hb]. rewrite Hb.
  destruct b; [|reflexivity]. exfalso.
  destruct (setup_ok sc p cam) as [k [Hk [_ Hko]]]; [lra|].
  unfold occluded, occluded_with in Hb. rewrite Hk in Hb. cbn [bind] in Hb.
  rewrite Hko, Ho in Hb. cbn [mem existsb] in Hb.
  destruct (loop k (occ_fuel k) _) as [b|] eqn:E; [|discriminate].
  injection Hb as ->.
  refine (loop_never_true k _ _ _ E).
  intros st. apply body_no_opaque. rewrite Hko. exact Ho.
Qed.

(** Witness of [occluded_no_opaque]. *)
Lemma occluded_no_opaque_witness :
  let sc := {| sx := (0, 4); sy := (0, 4); sz := (0, 1); pstep := 1;
               dstep := PI / 2; opaque := [] |} in
  0 < pstep sc /\ opaque sc = [] /\
  occluded sc (V3 (7/2) (5/2) (1/2)) (V3 (1/2) (1/2) (1/2)) = Ok false.
Proof.
  intros sc.
  assert (H1 : 0 < pstep sc) by (simpl; lra).
  assert (H2 : opaque sc = []) by reflexivity.
  split; [exact H1|split; [exact H2|]].
  exact (occluded_no_opaque sc _ _ H1 H2).
Defined.

(** Making more voxels opaque never clears an occlusion: if [occluded]
    returns [True], it still does for any larger opaque set, in particular
    after any successful [make_opaque]. *)
Theorem occluded_monotone (sc : Scene) (O : list vec3) (p cam : vec3)
  (Hsub : forall q, mem q (opaque sc) = true -> mem q O = true)
  (Hocc : occluded sc p cam = Ok true) :
  occluded (with_opaque sc O) p cam = Ok true /\
  (forall q sc', make_opaque sc q = Ok sc' -> occluded sc' p cam = Ok true).
Proof.
  assert (Hgen : forall O', (forall q, mem q (opaque sc) = true -> mem q O' = true) ->
                 occluded (with_opaque sc O') p cam = Ok true).
  { intros O' Hs. unfold occluded, occluded_with in *.
    destruct (occ_setup sc p cam) as [k|] eqn:Hk; cbn [bind] in Hocc; [|discriminate].
    assert (Hko : k_opaque k = opaque sc).
    { destruct (Req_EM_T (pstep sc) 0) as [E|E].
      - unfold occ_setup in Hk. destruct (Req_EM_T (pstep sc) 0); [discriminate|contradiction].
      - destruct (setup_ok sc p cam E) as [k' [Hk' [_ Ho']]].
        rewrite Hk in Hk'. injection Hk' as <-. exact Ho'. }
    rewrite (setup_with_opaque sc O' p cam k Hk). cbn [bind k_opaque k_P0 k_exy0 k_exz0].
    rewrite <- Hko in Hs.
    destruct (mem (k_P0 k) (k_opaque k)) eqn:Em.
    - rewrite (Hs _ Em). reflexivity.
    - destruct (mem (k_P0 k) O'); [reflexivity|].
      destruct (loop k (occ_fuel k) _) as [[|]|] eqn:El; try discriminate.
      change (occ_fuel (kop k O')) with (occ_fuel k).
      rewrite (loop_mono k O' _ _ Hs El). reflexivity. }
  split; [apply Hgen; exact Hsub|].
  intros q sc' Hm. unfold make_opaque in Hm.
  destruct (pymod (px q) (pstep sc)); cbn [bind] in Hm; [|discriminate].
  destruct (pymod (py q) (pstep sc)); cbn [bind] in Hm; [|discriminate].
  destruct (pymod (pz q) (pstep sc)); cbn [bind] in Hm; [|discriminate].
  destruct (_ || _); [discriminate|]. injection Hm as <-.
  apply Hgen. intros v Hv. unfold set_add.
  destruct (mem q (opaque sc)); [exact Hv|].
  cbn [mem existsb]. unfold mem in Hv. rewrite Hv. apply orb_true_r.
Qed.

(** Witness of [occluded_monotone]: the straight run along [x] blocked by
    the voxel [(2, 0, 0)] stays blocked with one more opaque voxel. *)
Lemma occluded_monotone_witness :
  let sc := {| sx := (0, 4); sy := (0, 4); sz := (0, 1); pstep := 1;
               dstep := PI / 2; opaque := [V3 2 0 0] |} in
  (forall q, mem q (opaque sc) = true -> mem q [V3 2 0 0; V3 3 3 0] = true) /\
  occluded sc (V3 (7/2) (1/2) (1/2)) (V3 (1/2) (1/2) (1/2)) = Ok true /\
  occluded (with_opaque sc [V3 2 0 0; V3 3 3 0])
    (V3 (7/2) (1/2) (1/2)) (V3 (1/2) (1/2) (1/2)) = Ok true.
Proof.
  intros sc.
  assert (H1 : forall q, mem q (opaque sc) = true -> mem q [V3 2 0 0; V3 3 3 0] = true).
  { intros q H. unfold mem in *. cbn [existsb opaque sc] in *.
    rewrite orb_false_r in H. rewrite H. reflexivity. }
  assert (H2 : occluded sc (V3 (7/2) (1/2) (1/2)) (V3 (1/2) (1/2) (1/2)) = Ok true)
    by exact (proj1 occluded_axis_run).
  split; [exact H1|split; [exact H2|]].
  exact (proj1 (occluded_monotone sc _ _ _ H1 H2)).
Defined.

(** A segment inside one voxel: when [p] and [cam] lie in the same grid
    voxel, [occluded] tests that voxel alone and returns whether it is
    opaque. *)
Theorem occluded_same_voxel (sc : Scene) (p cam : vec3)
  (Hps : pstep sc <> 0) (Hv : voxel (pstep sc) p = voxel (pstep sc) cam) :
  occluded sc p cam = Ok (mem (voxel (pstep sc) cam) (opaque sc)).
Proof.
  destruct (setup_ok sc p cam Hps) as [k [Hk [HP Ho]]].
  pose proof (setup_P2 sc p cam k Hk) as H2.
  unfold occluded, occluded_with. rewrite Hk. cbn [bind]. rewrite HP, Ho.
  destruct (mem _ _); [reflexivity|].
  unfold occ_fuel. cbn [loop fst]. rewrite H2, Hv, <- HP.
  unfold Rlt_b. destruct (Rlt_dec _ _) as [E|]; [lra|reflexivity].
Qed.

(** Witness of [occluded_same_voxel]: both ends in the voxel [(0, 0, 0)]. *)
Lemma occluded_same_voxel_witness :
  let sc := {| sx := (0, 4); sy := (0, 4); sz := (0, 1); pstep := 1;
               dstep := PI / 2; opaque := [V3 0 0 0] |} in
  pstep sc <> 0 /\
  voxel (pstep sc) (V3 (1/4) (3/4) (1/2)) = voxel (pstep sc) (V3 (1/2) (1/2) (1/2)) /\
  occluded sc (V3 (1/4) (3/4) (1/2)) (V3 (1/2) (1/2) (1/2))
  = Ok (mem (voxel 1 (V3 (1/2) (1/2) (1/2))) [V3 0 0 0]).
Proof.
  intros sc.
  assert (H1 : pstep sc <> 0) by (simpl; lra).
  assert (H2 : voxel (pstep sc) (V3 (1/4) (3/4) (1/2))
               = voxel (pstep sc) (V3 (1/2) (1/2) (1/2))).
  { unfold voxel. cbn [pstep sc px py pz]. pyint_rw. reflexivity. }
  split; [exact H1|split; [exact H2|]].
  exact (occluded_same_voxel sc _ _ H1 H2).
Defined.

(** ** More of [make_opaque] and [generate_points] *)

Lemma vec3_eqb_refl (v : vec3) : vec3_eqb v v = true.
Proof.
  unfold vec3_eqb, Req_b.
  destruct (Req_EM_T (px v) (px v)); [|contradiction].
  destruct (Req_EM_T (py v) (py v)); [|contradiction].
  destruct (Req_EM_T (pz v) (pz v)); [reflexivity|contradiction].
Qed.

Lemma mem_set_add_self (p : vec3) (s : list vec3) : mem p (set_add p s) = true.
Proof.
  unfold set_add. destruct (mem p s) eqn:E; [exact E|].
  cbn [mem existsb]. rewrite vec3_eqb_refl. reflexivity.
Qed.

(** [make_opaque] is idempotent: making the same voxel opaque again
    succeeds and leaves the scene as it is. *)
Theorem make_opaque_idempotent (sc sc' : Scene) (p : vec3)
  (H : make_opaque sc p = Ok sc') :
  make_opaque sc' p = Ok sc'.
Proof.
  unfold make_opaque in *.
  destruct (pymod (px p) (pstep sc)) as [mx|] eqn:Ex; cbn [bind] in H; [|discriminate].
  destruct (pymod (py p) (pstep sc)) as [my|] eqn:Ey; cbn [bind] in H; [|discriminate].
  destruct (pymod (pz p) (pstep sc)) as [mz|] eqn:Ez; cbn [bind] in H; [|discriminate].
  destruct (truthy mx || truthy my || truthy mz) eqn:Et; [discriminate|].
  injection H as <-. cbn [with_opaque pstep opaque].
  rewrite Ex, Ey, Ez. cbn [bind]. rewrite Et.
  change (set_add p (set_add p (opaque sc))) with
    (if mem p (set_add p (opaque sc)) then set_add p (opaque sc)
     else p :: set_add p (opaque sc)).
  rewrite mem_set_add_self. reflexivity.
Qed.

(** Witness of [make_opaque_idempotent]: the voxel [(1, 2, 0)] at
    [pstep = 1]. *)
Lemma make_opaque_idempotent_witness :
  let sc := {| sx := (0, 4); sy := (0, 4); sz := (0, 1); pstep := 1;
               dstep := PI / 2; opaque := [] |} in
  make_opaque sc (V3 1 2 0) = Ok (with_opaque sc [V3 1 2 0]) /\
  make_opaque (with_opaque sc [V3 1 2 0]) (V3 1 2 0) = Ok (with_opaque sc [V3 1 2 0]).
Proof.
  intros sc.
  assert (H : make_opaque sc (V3 1 2 0) = Ok (with_opaque sc [V3 1 2 0])).
  { subst sc. unfold make_opaque. cbn [pstep px py pz].
    rewrite (pymod_of 1 1 1), (pymod_of 2 1 2), (pymod_of 0 1 0)
      by first [lra | split; lra].
    cbn [bind]. unfold truthy, Req_b.
    repeat (destruct (Req_EM_T _ _); try lra); reflexivity. }
  split; [exact H|exact (make_opaque_idempotent _ _ _ H)].
Defined.

Lemma arange_l_nil a b s : (b - a) / s <= 0 -> arange_l a b s = [].
Proof.
  intros H. unfold arange_l, arange_len.
  destruct (base_Int_part (- ((b - a) / s))) as [_ H2].
  assert (Hz : (0 <= Int_part (- ((b - a) / s)))%Z).
  { assert (Hl : (-1 < Int_part (- ((b - a) / s)))%Z) by (apply lt_IZR; simpl; lra).
    lia. }
  replace (Z.to_nat (- Int_part (- ((b - a) / s)))) with 0%nat by lia. reflexivity.
Qed.

Lemma flat_mapM_nil {A B} (f : A -> result (list B)) (l : list A) :
  (forall x, f x = Ok []) -> flat_mapM f l = Ok [].
Proof.
  intros H. induction l as [|a t IH]; simpl; [reflexivity|].
  rewrite H, IH. reflexivity.
Qed.

(** An empty range on any axis ([max <= min], for [pstep > 0]) yields no
    point at all; [dstep] is not even used then. *)
Theorem generate_points_empty_range (sc : Scene) (Hps : 0 < pstep sc)
  (Hr : snd (sx sc) <= fst (sx sc) \/ snd (sy sc) <= fst (sy sc) \/
        snd (sz sc) <= fst (sz sc)) :
  generate_points sc = Ok [].
Proof.
  assert (Hn : forall a b, b <= a -> arange_l a b (pstep sc) = []).
  { intros a b Hab. apply arange_l_nil. unfold Rdiv.
    assert (0 < / pstep sc) by (apply Rinv_0_lt_compat; exact Hps). nra. }
  unfold generate_points, arange.
  destruct (Req_EM_T (pstep sc) 0) as [|_]; [lra|]. cbn [bind].
  destruct Hr as [H|[H|H]].
  - rewrite (Hn _ _ H). reflexivity.
  - apply flat_mapM_nil. intros x. rewrite (Hn _ _ H). reflexivity.
  - apply flat_mapM_nil. intros x. apply flat_mapM_nil. intros y.
    rewrite (Hn _ _ H). reflexivity.
Qed.

(** Witness of [generate_points_empty_range]: an empty [z] range. *)
Lemma generate_points_empty_range_witness :
  let sc := {| sx := (0, 4); sy := (0, 4); sz := (1, 1); pstep := 1;
               dstep := 0; opaque := [] |} in
  0 < pstep sc /\ snd (sz sc) <= fst (sz sc) /\ generate_points sc = Ok [].
Proof.
  intros sc.
  assert (H1 : 0 < pstep sc) by (simpl; lra).
  assert (H2 : snd (sz sc) <= fst (sz sc)) by (simpl; lra).
  split; [exact H1|split; [exact H2|]].
  exact (generate_points_empty_range sc H1 (or_intror (or_intror H2))).
Defined.

(** ** [Camera.__init__] *)

Lemma pydiv_ok (a b : R) : b <> 0 -> pydiv a b = Ok (a / b).
Proof. intros H. unfold pydiv. destruct (Req_EM_T b 0); [contradiction|reflexivity]. Qed.

Lemma atan_nonneg (x : R) : 0 <= x -> 0 <= atan x.
Proof.
  intros H. destruct (Req_dec x 0) as [->|Hx]; [rewrite atan_0; lra|].
  pose proof (atan_increasing 0 x ltac:(lra)) as Hi. rewrite atan_0 in Hi. lra.
Qed.

(** The half field-of-view angle sum of [Camera.__init__] is in [(0, pi)]
    for a principal point inside the sensor. *)
Lemma half_angle_sin_pos (o s f w : R) (Hf : 0 < f) (Hs : 0 < s) (Hw : 0 < w)
  (Ho : 0 <= o <= w) :
  0 < sin ((2 * atan (o * s / (2 * f)) + 2 * atan ((w - o) * s / (2 * f))) / 2).
Proof.
  assert (Hi : 0 < / (2 * f)) by (apply Rinv_0_lt_compat; lra).
  assert (Ha : 0 <= o * s / (2 * f))
    by (unfold Rdiv; apply Rmult_le_pos; [apply Rmult_le_pos|]; lra).
  assert (Hb : 0 <= (w - o) * s / (2 * f))
    by (unfold Rdiv; apply Rmult_le_pos; [apply Rmult_le_pos|]; lra).
  pose proof (atan_nonneg _ Ha). pose proof (atan_nonneg _ Hb).
  pose proof (atan_bound (o * s / (2 * f))). pose proof (atan_bound ((w - o) * s / (2 * f))).
  assert (Hp : 0 < atan (o * s / (2 * f)) + atan ((w - o) * s / (2 * f))).
  { destruct (Req_dec o 0) as [Eo|Eo].
    - assert (Hb' : 0 < (w - o) * s / (2 * f))
        by (unfold Rdiv; apply Rmult_lt_0_compat; [apply Rmult_lt_0_compat|]; lra).
      pose proof (atan_increasing 0 _ Hb') as Hi'. rewrite atan_0 in Hi'. lra.
    - assert (Ha' : 0 < o * s / (2 * f))
        by (unfold Rdiv; apply Rmult_lt_0_compat; [apply Rmult_lt_0_compat|]; lra).
      pose proof (atan_increasing 0 _ Ha') as Hi'. rewrite atan_0 in Hi'. lra. }
  apply sin_gt_0; lra.
Qed.

Lemma trap_mu_neg (t : Trapezoid) (k1 s1 v : R) (Hk : kernel t = (0, k1))
  (Hs : support t = (0, s1)) (Hk1 : 0 < k1) (Hv : v < 0) : trap_mu t v = 0.
Proof.
  unfold trap_mu. rewrite Hk, Hs. unfold Rle_b, Rlt_b.
  destruct (Rle_dec 0 v); [lra|]. destruct (Rlt_dec 0 v); [lra|].
  destruct (Rlt_dec k1 v); [lra|]. reflexivity.
Qed.

(** A camera whose resolution set starts at [0] with a positive kernel
    bound gives degree [0] to every point at or behind its image plane. *)
Lemma mu_behind {Pose} (neg_map : Pose -> dpoint -> dpoint) (c : Camera Pose)
  (dp : dpoint) (k1 s1 : R) (Hk : kernel (Cr c) = (0, k1))
  (Hs : support (Cr c) = (0, s1)) (Hk1 : 0 < k1) (Hz : zeta c <> 0)
  (Hle : pz (pos (neg_map (pose c) dp)) <= 0) :
  mu neg_map c dp = Ok 0.
Proof.
  unfold mu. cbv zeta.
  destruct (Req_EM_T (pz (pos (neg_map (pose c) dp))) 0) as [E|E].
  - destruct (neg_map (pose c) dp); cbn [bind]; [f_equal; ring|].
    destruct (Req_EM_T (zeta c) 0); [contradiction|]. cbn [bind]. f_equal. ring.
  - rewrite (trap_mu_neg (Cr c) k1 s1 _ Hk Hs Hk1) by lra.
    destruct (neg_map (pose c) dp); cbn [bind]; [f_equal; ring|].
    destruct (Req_EM_T (zeta c) 0); [contradiction|]. cbn [bind]. f_equal. ring.
Qed.

(** [Camera.__init__] succeeds for a positive focal length, pixel size and
    sensor size, a principal point on the sensor, [r1 > 0], [r2 <> 0] and
    non-zero focus denominators; the camera it builds gives degree [0] to
    every point at or behind its image plane ([z <= 0] in the camera frame). *)
Theorem camera_init_behind (Pose : Type) (nm : string)
  (A f su sv ou ov w h zS gamma r1 r2 cmax zt : R) (ps : Pose)
  (Hf : 0 < f) (Hsu : 0 < su) (Hsv : 0 < sv) (Hw : 0 < w) (Hh : 0 < h)
  (Hou : 0 <= ou <= w) (Hov : 0 <= ov <= h) (Hr1 : 0 < r1) (Hr2 : r2 <> 0)
  (Hzl : A * f + Rmin su sv * (zS - f) <> 0) (Hzr : A * f - Rmin su sv * (zS - f) <> 0)
  (Hzn : A * f + cmax * (zS - f) <> 0) (Hzf : A * f - cmax * (zS - f) <> 0)
  (Hzt : zt <> 0) :
  exists c, camera_init nm A f su sv ou ov w h zS gamma r1 r2 cmax zt ps = Ok c /\
    name c = nm /\ pose c = ps /\
    forall (neg_map : Pose -> dpoint -> dpoint) dp,
      pz (pos (neg_map ps dp)) <= 0 -> mu neg_map c dp = Ok 0.
Proof.
  pose proof (half_angle_sin_pos ou su f w Hf Hsu Hw Hou) as Hsh.
  pose proof (half_angle_sin_pos ov sv f h Hf Hsv Hh Hov) as Hsv'.
  unfold camera_init.
  repeat (rewrite pydiv_ok by first [assumption | lra]; cbn [bind]).
  eexists. split; [reflexivity|]. split; [reflexivity|]. split; [reflexivity|].
  intros neg_map dp Hle.
  eapply mu_behind; [reflexivity|reflexivity| |exact Hzt|exact Hle].
  apply Rmult_lt_0_compat; [unfold Rdiv; rewrite Rmult_1_l; apply Rinv_0_lt_compat; lra|].
  apply Rmin_pos; unfold Rdiv; apply Rmult_lt_0_compat; try lra;
    apply Rinv_0_lt_compat; lra.
Qed.

(** Witness of [camera_init_behind]: a 2x2 sensor with unit pixels and
    focal length, the principal point in the middle. *)
Lemma camera_init_behind_witness :
  exists c, camera_init "c"%string 1 1 1 1 1 1 2 2 (3 / 2) 0 1 2 (1 / 2) 1 tt = Ok c /\
    name c = "c"%string /\ pose c = tt /\
    forall (neg_map : unit -> dpoint -> dpoint) dp,
      pz (pos (neg_map tt dp)) <= 0 -> mu neg_map c dp = Ok 0.
Proof.
  assert (Hm : Rmin 1 1 = 1) by (apply Rmin_left; lra).
  apply (camera_init_behind unit "c"%string 1 1 1 1 1 1 2 2 (3 / 2) 0 1 2 (1 / 2) 1 tt);
    try rewrite Hm; lra.
Defined.

(** ** [MultiCamera._update_inscene] and [MultiCamera.add] *)

Lemma cam_get_missing {Pose} (cs : list (Camera Pose)) (key : string) :
  Forall (fun c => name c <> key) cs -> cam_get cs key = Err KeyError.
Proof.
  unfold cam_get. induction 1 as [|c t Hc _ IH]; simpl; [reflexivity|].
  destruct (String.eqb (name c) key) eqn:E; [|exact IH].
  apply String.eqb_eq in E. contradiction.
Qed.

Lemma cam_get_in {Pose} (cs : list (Camera Pose)) (key : string) (c : Camera Pose) :
  cam_get cs key = Ok c -> In c cs /\ name c = key.
Proof.
  unfold cam_get. destruct (find _ cs) as [c'|] eqn:E; [|discriminate].
  intros [= <-]. apply find_some in E as [Hin Heq].
  apply String.eqb_eq in Heq. auto.
Qed.

Lemma cam_get_found {Pose} (cs : list (Camera Pose)) (key : string) :
  (exists c, In c cs /\ name c = key) -> exists c, cam_get cs key = Ok c.
Proof.
  intros [c [Hin Hn]]. unfold cam_get.
  destruct (find (fun c => String.eqb (name c) key) cs) as [c'|] eqn:E; [eauto|].
  exfalso. apply (find_none _ _ E) in Hin. rewrite Hn, String.eqb_refl in Hin.
  discriminate.
Qed.

Lemma dict_get_set_other d key key' v :
  key' <> key -> dict_get (dict_set d key v) key' = dict_get d key'.
Proof.
  intros Hne. unfold dict_get, dict_set. cbn [find fst].
  destruct (String.eqb key key') eqn:E;
    [apply String.eqb_eq in E; congruence|].
  induction d as [|[k w] t IH]; simpl; [reflexivity|].
  destruct (String.eqb k key) eqn:E1; simpl.
  - apply String.eqb_eq in E1. subst k. rewrite E. exact IH.
  - destruct (String.eqb k key'); [reflexivity|exact IH].
Qed.

Lemma update_inscene_frame {Pose} (T : Pose -> vec3)
  (neg_map : Pose -> dpoint -> dpoint) (n n' : MultiCamera Pose) (key : string) :
  update_inscene T neg_map n key = Ok n' ->
  scene n' = scene n /\ cams n' = cams n /\ model n' = model n /\
  (exists S, dict_get (inscene n') key = Some S) /\
  forall key', key' <> key -> dict_get (inscene n') key' = dict_get (inscene n) key'.
Proof.
  unfold update_inscene. destruct (generate_points (scene n)); cbn [bind]; [|discriminate].
  destruct (flat_mapM _ _) as [S|]; cbn [bind]; [|discriminate].
  intros [= <-]. cbn [with_inscene scene cams model inscene].
  split; [reflexivity|]. split; [reflexivity|]. split; [reflexivity|].
  split; [exists S; apply dict_get_set|].
  intros key' Hne. apply dict_get_set_other. exact Hne.
Qed.

(** [_update_inscene] succeeds for a key naming a camera of the network,
    when [pstep > 0], [dstep <> 0] and every camera has [zeta <> 0]. *)
Lemma update_inscene_ok {Pose} (T : Pose -> vec3)
  (neg_map : Pose -> dpoint -> dpoint) (n : MultiCamera Pose) (key : string)
  (Hps : 0 < pstep (scene n)) (Hds : dstep (scene n) <> 0)
  (Hz : forall c, In c (cams n) -> zeta c <> 0)
  (Hkey : exists c, In c (cams n) /\ name c = key) :
  exists n', update_inscene T neg_map n key = Ok n'.
Proof.
  destruct (generate_points_ok (scene n)) as [pts Hg]; [lra|exact Hds|].
  destruct (cam_get_found _ _ Hkey) as [c0 Hc0].
  destruct (cam_get_in _ _ _ Hc0) as [Hin0 _].
  unfold update_inscene. rewrite Hg. cbn [bind]. rewrite Hc0. cbn [bind].
  match goal with |- context [flat_mapM ?g pts] =>
    destruct (flat_mapM_in g pts) as [S [HS _]] end.
  - intros dp _. cbv beta.
    destruct (mu_ok neg_map c0 dp (Hz c0 Hin0)) as [m Hm]. rewrite Hm. cbn [bind].
    destruct (Rlt_b 0 m); [|eauto].
    destruct (occluded_ok (scene n) (pos dp) (T (pose c0)) Hps) as [b Hb].
    rewrite Hb. cbn [bind]. destruct b; eauto.
  - rewrite HS. cbn [bind]. eexists. reflexivity.
Qed.

(** [_update_inscene] with a key that names no camera of the network
    fails with [KeyError] ([self[key]]) as soon as the scene has a point;
    on a scene without points the loop body never runs and the key is
    stored with an empty in-scene set. *)
Theorem update_inscene_missing_key {Pose} (T : Pose -> vec3)
  (neg_map : Pose -> dpoint -> dpoint) (n : MultiCamera Pose) (key : string)
  (Hk : Forall (fun c => name c <> key) (cams n)) :
  update_inscene T neg_map n key =
    (pts <- generate_points (scene n) ;;
     match pts with
     | [] => Ok (with_inscene n (dict_set (inscene n) key []))
     | _ :: _ => Err KeyError
     end).
Proof.
  unfold update_inscene.
  destruct (generate_points (scene n)) as [pts|e]; cbn [bind]; [|reflexivity].
  destruct pts as [|d t]; cbn [flat_mapM bind]; [reflexivity|].
  rewrite (cam_get_missing _ _ Hk). reflexivity.
Qed.

(** Witness of [update_inscene_missing_key]: a network without cameras. *)
Lemma update_inscene_missing_key_witness :
  let n := {| scene := {| sx := (0, 1); sy := (0, 1); sz := (0, 1); pstep := 1;
                          dstep := PI; opaque := [] |};
              cams := []; inscene := []; model := [] |} in
  Forall (fun c : Camera unit => name c <> "a"%string) (cams n) /\
  update_inscene (fun _ => V3 0 0 0) (fun _ d => d) n "a" =
    (pts <- generate_points (scene n) ;;
     match pts with
     | [] => Ok (with_inscene n (dict_set (inscene n) "a" []))
     | _ :: _ => Err KeyError
     end).
Proof.
  intros n.
  assert (Hk : Forall (fun c : Camera unit => name c <> "a"%string) (cams n))
    by constructor.
  split; [exact Hk|].
  exact (update_inscene_missing_key (fun _ => V3 0 0 0) (fun _ d => d) n "a" Hk).
Defined.

(** ** [MultiCamera.__init__] *)

Lemma NoDup_snoc {A} (l : list A) (x : A) :
  NoDup l -> ~ In x l -> NoDup (l ++ [x]).
Proof.
  induction 1 as [|a t Ha Hnd IH]; intros Hx; simpl; [constructor; [intros []|constructor]|].
  constructor.
  - intros Hin. apply in_app_or in Hin as [Hin|[<-|[]]]; [contradiction|].
    apply Hx. left. reflexivity.
  - apply IH. intros Hin. apply Hx. right. exact Hin.
Qed.

Lemma iset_add_props {Pose} (c : Camera Pose) (acc : list (Camera Pose)) :
  (forall x, In x (iset_add c acc) -> In x acc \/ x = c) /\
  (forall x, In x acc -> In x (iset_add c acc)) /\
  (exists c', In c' (iset_add c acc) /\ name c' = name c) /\
  (NoDup (map name acc) -> NoDup (map name (iset_add c acc))).
Proof.
  unfold iset_add.
  destruct (existsb (fun c' => String.eqb (name c') (name c)) acc) eqn:E.
  - apply existsb_exists in E as [c' [Hin Heq]]. apply String.eqb_eq in Heq.
    split; [auto|]. split; [auto|]. split; [eauto|auto].
  - assert (Hn : ~ In (name c) (map name acc)).
    { intros Hi. apply in_map_iff in Hi as [c' [Hc' Hin]].
      assert (E' : existsb (fun c' => String.eqb (name c') (name c)) acc = true)
        by (apply existsb_exists; exists c'; rewrite Hc', String.eqb_refl; auto).
      congruence. }
    split; [intros x Hx; apply in_app_or in Hx as [Hx|[<-|[]]]; auto|].
    split; [intros x Hx; apply in_or_app; auto|].
    split; [exists c; split; [apply in_or_app; right; left|]; reflexivity|].
    intros Hnd. rewrite map_app. apply NoDup_snoc; assumption.
Qed.

Lemma iset_fold {Pose} (cameras acc : list (Camera Pose)) :
  let cs := fold_left (fun cs c => iset_add c cs) cameras acc in
  (forall c, In c cs -> In c acc \/ In c cameras) /\
  (forall c, In c acc \/ In c cameras -> exists c', In c' cs /\ name c' = name c) /\
  (NoDup (map name acc) -> NoDup (map name cs)).
Proof.
  revert acc. induction cameras as [|c t IH]; intros acc; simpl.
  - split; [auto|]. split; [intros c [H|[]]; eauto|auto].
  - destruct (IH (iset_add c acc)) as (H1 & H2 & H3).
    destruct (iset_add_props c acc) as (P1 & P2 & [c0 [P3 P4]] & P5).
    split; [|split].
    + intros x Hx. destruct (H1 x Hx) as [Ha|Ha]; [|auto].
      destruct (P1 x Ha) as [|<-]; auto.
    + intros x [Hx|[<-|Hx]].
      * apply H2. left. apply P2. exact Hx.
      * destruct (H2 c0 (or_introl P3)) as [c1 [Hc1 Hn1]]. exists c1.
        split; [exact Hc1|congruence].
      * apply H2. right. exact Hx.
    + intros Hnd. apply H3, P5, Hnd.
Qed.

Lemma iset_add_new {Pose} (c : Camera Pose) (acc : list (Camera Pose)) x :
  In x (iset_add c acc) ->
  In x acc \/ (x = c /\ Forall (fun c' => name c' <> name c) acc).
Proof.
  unfold iset_add.
  destruct (existsb (fun c' => String.eqb (name c') (name c)) acc) eqn:E; [auto|].
  intros Hx. apply in_app_or in Hx as [Hx|[<-|[]]]; [auto|right].
  split; [reflexivity|]. apply Forall_forall. intros c' Hc' Heq.
  assert (E' : existsb (fun c' => String.eqb (name c') (name c)) acc = true)
    by (apply existsb_exists; exists c'; rewrite Heq, String.eqb_refl; auto).
  congruence.
Qed.

(** A camera kept by the fold of [IndexedSet.add] is the first one of its
    name: no camera before it in the input list (nor in the starting set)
    has that name. *)
Lemma iset_fold_first {Pose} (cameras acc : list (Camera Pose)) (c : Camera Pose) :
  In c (fold_left (fun cs c => iset_add c cs) cameras acc) ->
  In c acc \/
  exists l1 l2, cameras = l1 ++ c :: l2 /\
    Forall (fun c' => name c' <> name c) l1 /\
    Forall (fun c' => name c' <> name c) acc.
Proof.
  revert acc. induction cameras as [|a t IH]; intros acc Hc; simpl in Hc; [left; exact Hc|].
  destruct (IH _ Hc) as [H1|(l1 & l2 & E & Hl1 & Hacc')].
  - destruct (iset_add_new a acc c H1) as [Ha|[-> Hf]]; [left; exact Ha|].
    right. exists [], t. split; [reflexivity|]. split; [constructor|exact Hf].
  - right. destruct (iset_add_props a acc) as (_ & P2 & [a0 [Ha0 Hn0]] & _).
    exists (a :: l1), l2. split; [rewrite E; reflexivity|]. split.
    + constructor; [|exact Hl1]. rewrite Forall_forall in Hacc'.
      rewrite <- Hn0. exact (Hacc' a0 Ha0).
    + rewrite Forall_forall in *. intros x Hx. apply Hacc'. apply P2. exact Hx.
Qed.

Lemma update_all_ok {Pose} (T : Pose -> vec3) (neg_map : Pose -> dpoint -> dpoint)
  (keys : list string) : forall (n : MultiCamera Pose),
  0 < pstep (scene n) -> dstep (scene n) <> 0 ->
  (forall c, In c (cams n) -> zeta c <> 0) ->
  (forall key, In key keys -> exists c, In c (cams n) /\ name c = key) ->
  exists n', update_all T neg_map n keys = Ok n' /\ scene n' = scene n /\
    cams n' = cams n /\ model n' = model n /\
    forall key, In key keys \/ dict_get (inscene n) key <> None ->
      dict_get (inscene n') key <> None.
Proof.
  induction keys as [|key t IH]; intros n Hps Hds Hz Hk.
  - exists n. split; [reflexivity|]. split; [reflexivity|]. split; [reflexivity|].
    split; [reflexivity|]. intros key [[]|H]. exact H.
  - destruct (update_inscene_ok T neg_map n key Hps Hds Hz (Hk key (or_introl eq_refl)))
      as [n1 H1].
    destruct (update_inscene_frame T neg_map _ _ _ H1) as (Hs & Hc & Hm & [S HS] & Ho).
    destruct (IH n1) as [n' (Hu & Hs' & Hc' & Hm' & Hd')].
    + rewrite Hs. exact Hps.
    + rewrite Hs. exact Hds.
    + rewrite Hc. exact Hz.
    + rewrite Hc. intros key' Hin. apply Hk. right. exact Hin.
    + exists n'. cbn [update_all]. rewrite H1. cbn [bind].
      split; [exact Hu|]. split; [congruence|]. split; [congruence|]. split; [congruence|].
      intros key' [[<-|Hin]|Hd].
      * apply Hd'. right. rewrite HS. discriminate.
      * apply Hd'. left. exact Hin.
      * destruct (String.eqb_spec key' key) as [->|Hne].
        -- apply Hd'. right. rewrite HS. discriminate.
        -- apply Hd'. right. rewrite (Ho key' Hne). exact Hd.
Qed.

(** [MultiCamera.__init__] (for [pstep > 0], [dstep <> 0] and cameras with
    [zeta <> 0]) succeeds; the network holds one camera per distinct name,
    the first one of that name in the given list, each with an in-scene
    set, an empty model and the given scene; and both
    [MultiCameraSimple.update] and [MultiCamera3D.update] then succeed. *)
Theorem multicamera_init_ready {Pose} (T : Pose -> vec3)
  (neg_map : Pose -> dpoint -> dpoint) (sc : Scene) (cameras : list (Camera Pose))
  (Hps : 0 < pstep sc) (Hds : dstep sc <> 0)
  (Hz : Forall (fun c => zeta c <> 0) cameras) :
  exists n, multicamera_init T neg_map sc cameras = Ok n /\
    scene n = sc /\ model n = [] /\
    (forall c, In c (cams n) -> In c cameras) /\
    (forall c, In c (cams n) -> exists l1 l2, cameras = l1 ++ c :: l2 /\
       Forall (fun c' => name c' <> name c) l1) /\
    (forall c, In c cameras -> exists c', In c' (cams n) /\ name c' = name c) /\
    NoDup (map name (cams n)) /\
    (forall c, In c (cams n) -> exists S, inscene_of n c = Ok S) /\
    (exists n1, update_simple n = Ok n1) /\ (exists n2, update_3d n = Ok n2).
Proof.
  unfold multicamera_init. cbv zeta.
  destruct (iset_fold cameras []) as (F1 & F2 & F3).
  set (cs := fold_left (fun cs c => iset_add c cs) cameras []) in *.
  assert (Hz' : forall c, In c cs -> zeta c <> 0).
  { intros c Hc. destruct (F1 c Hc) as [[]|Hc']. rewrite Forall_forall in Hz. auto. }
  destruct (update_all_ok T neg_map (map name cs)
              {| scene := sc; cams := cs; inscene := []; model := [] |} Hps Hds Hz')
    as [n (Hu & Hs & Hc & Hm & Hd)].
  { intros key Hin. apply in_map_iff in Hin as [c [Hc Hin]]. eauto. }
  cbn [scene cams model inscene] in Hs, Hc, Hm, Hd.
  assert (Hcache : forall c, In c (cams n) -> exists S, inscene_of n c = Ok S).
  { intros c Hin. unfold inscene_of.
    destruct (dict_get (inscene n) (name c)) as [S|] eqn:E; [eauto|].
    exfalso. apply (Hd (name c)); [left; apply in_map; rewrite <- Hc; exact Hin|exact E]. }
  exists n. split; [exact Hu|]. split; [exact Hs|]. split; [exact Hm|].
  split; [intros c Hin; rewrite Hc in Hin; destruct (F1 c Hin) as [[]|H]; exact H|].
  split.
  { intros c Hin. rewrite Hc in Hin.
    destruct (iset_fold_first cameras [] c Hin) as [[]|(l1 & l2 & E & Hl1 & _)].
    exists l1, l2. split; [exact E|exact Hl1]. }
  split; [intros c Hin; rewrite Hc; apply F2; right; exact Hin|].
  split; [rewrite Hc; apply F3; constructor|].
  split; [exact Hcache|]. split.
  - unfold update_simple.
    destruct (mapM_ok (inscene_of n) (cams n)) as [sets [Hsets _]];
      [apply Forall_forall; exact Hcache|].
    rewrite Hsets. cbn [bind]. eexists. reflexivity.
  - destruct (generate_points_ok (scene n)) as [pts Hg]; [rewrite Hs; lra|rewrite Hs; exact Hds|].
    unfold update_3d. rewrite Hg. cbn [bind].
    match goal with |- context [mapM ?g (combinations2 (cams n))] =>
      destruct (mapM_ok g (combinations2 (cams n))) as [pairs [Hp _]] end.
    + apply Forall_forall. intros [a b] Hab. cbv beta. cbn [fst snd].
      destruct (combinations2_in _ _ _ Hab) as [Ha Hb].
      destruct (Hcache a Ha) as [Sa ->]. destruct (Hcache b Hb) as [Sb ->].
      cbn [bind]. eexists. reflexivity.
    + rewrite Hp. cbn [bind]. eexists. reflexivity.
Qed.

(** Witness of [multicamera_init_ready]: three cameras, two of them named
    ["a"]. *)
Lemma multicamera_init_ready_witness :
  let tr := {| kernel := (1, 2); support := (0, 3) |} in
  let ca := {| name := "a"; Cvh := tr; Cvv := tr; Cr := tr; Cf := tr;
               zeta := 1; pose := tt |} in
  let ca' := {| name := "a"; Cvh := tr; Cvv := tr; Cr := tr; Cf := tr;
                zeta := 2; pose := tt |} in
  let cb := {| name := "b"; Cvh := tr; Cvv := tr; Cr := tr; Cf := tr;
               zeta := 1; pose := tt |} in
  let sc := {| sx := (0, 1); sy := (0, 1); sz := (0, 1); pstep := 1;
               dstep := PI; opaque := [] |} in
  exists n, multicamera_init (fun _ => V3 0 0 0) (fun _ d => d) sc [ca; ca'; cb] = Ok n /\
    NoDup (map name (cams n)) /\ (exists n2, update_3d n = Ok n2).
Proof.
  intros tr ca ca' cb sc.
  assert (H1 : 0 < pstep sc) by (simpl; lra).
  assert (H2 : dstep sc <> 0) by (simpl; apply PI_neq0).
  assert (H3 : Forall (fun c : Camera unit => zeta c <> 0) [ca; ca'; cb])
    by (repeat constructor; simpl; lra).
  destruct (multicamera_init_ready (fun _ => V3 0 0 0) (fun _ d => d) sc _ H1 H2 H3)
    as (n & Hn & _ & _ & _ & _ & _ & Hnd & _ & _ & H3d).
  exists n. auto.
Defined.

(** ** [MultiCameraSimple.update] and [MultiCamera3D.update] *)

Lemma inscene_of_err {Pose} (n : MultiCamera Pose) (c : Camera Pose) e :
  inscene_of n c = Err e -> e = KeyError /\ dict_get (inscene n) (name c) = None.
Proof.
  unfold inscene_of. destruct (dict_get (inscene n) (name c)); [discriminate|].
  intros [= <-]. auto.
Qed.

Lemma mapM_inscene_of {Pose} (n : MultiCamera Pose) (l : list (Camera Pose)) :
  (forall e, mapM (inscene_of n) l = Err e -> e = KeyError) /\
  (mapM (inscene_of n) l = Err KeyError <->
   exists c, In c l /\ dict_get (inscene n) (name c) = None).
Proof.
  induction l as [|a t [IH1 IH2]]; cbn [mapM].
  - split; [discriminate|]. split; [discriminate|]. intros (c & [] & _).
  - destruct (inscene_of n a) as [S|e] eqn:Ea; cbn [bind].
    + assert (Ha : dict_get (inscene n) (name a) <> None).
      { unfold inscene_of in Ea. destruct (dict_get _ _); discriminate. }
      destruct (mapM (inscene_of n) t) as [ys|e] eqn:Et; cbn [bind].
      * split; [discriminate|]. split; [discriminate|].
        intros (c & [<-|Hc] & Hn); [contradiction|].
        assert (E : Ok ys = Err KeyError) by (apply IH2; exists c; split; [exact Hc|exact Hn]). discriminate.
      * split; [exact IH1|]. rewrite IH2. split.
        -- intros (c & Hc & Hn). exists c. split; [right; exact Hc|exact Hn].
        -- intros (c & [<-|Hc] & Hn); [contradiction|]. exists c. split; [exact Hc|exact Hn].
    + destruct (inscene_of_err n a e Ea) as [-> Hn].
      split; [intros e' [= <-]; reflexivity|].
      split; [intros _; exists a; split; [left; reflexivity|exact Hn]|intros _; reflexivity].
Qed.

(** [MultiCameraSimple.update] fails exactly when some camera of the
    network has no in-scene set, and then only with [KeyError]. *)
Theorem update_simple_key_error {Pose} (n : MultiCamera Pose) :
  (forall e, update_simple n = Err e -> e = KeyError) /\
  (update_simple n = Err KeyError <->
   exists c, In c (cams n) /\ dict_get (inscene n) (name c) = None).
Proof.
  destruct (mapM_inscene_of n (cams n)) as [H1 H2].
  unfold update_simple. rewrite <- H2.
  destruct (mapM (inscene_of n) (cams n)) as [sets|e]; cbn [bind].
  - split; [discriminate|]. split; discriminate.
  - split; [intros e' [= <-]; apply H1; reflexivity|].
    split; intros [= ->]; reflexivity.
Qed.

(** With fewer than two cameras [MultiCamera3D.update] forms no pair: the
    model is degree [0] on every generated point, whatever the in-scene
    sets hold (a missing one raises nothing). *)
Theorem update_3d_single {Pose} (n : MultiCamera Pose)
  (H : (List.length (cams n) <= 1)%nat) :
  update_3d n =
    (pts <- generate_points (scene n) ;;
     Ok (with_model n (map (fun dp => (dp, 0)) pts))).
Proof.
  unfold update_3d. destruct (generate_points (scene n)) as [pts|e]; cbn [bind]; [|reflexivity].
  destruct (cams n) as [|c [|c' t]]; [reflexivity|reflexivity|simpl in H; lia].
Qed.

(** Witness of [update_3d_single]: one camera without an in-scene set. *)
Lemma update_3d_single_witness :
  let tr := {| kernel := (1, 2); support := (0, 3) |} in
  let c := {| name := "a"; Cvh := tr; Cvv := tr; Cr := tr; Cf := tr;
              zeta := 1; pose := tt |} in
  let n := {| scene := {| sx := (0, 1); sy := (0, 1); sz := (0, 1); pstep := 1;
                          dstep := PI; opaque := [] |};
              cams := [c]; inscene := []; model := [] |} in
  (List.length (cams n) <= 1)%nat /\
  update_3d n =
    (pts <- generate_points (scene n) ;;
     Ok (with_model n (map (fun dp => (dp, 0)) pts))).
Proof.
  intros tr c n.
  assert (H : (List.length (cams n) <= 1)%nat) by (simpl; lia).
  split; [exact H|exact (update_3d_single n H)].
Defined.

(** Degrees of an optional membership: none negative. *)
Definition onn (o : option R) : Prop := forall m, o = Some m -> 0 <= m.

Lemma omax_onn (a b : option R) :
  onn a -> onn b ->
  onn (omax a b) /\ odeg a <= odeg (omax a b) /\ odeg b <= odeg (omax a b).
Proof.
  unfold onn. intros Ha Hb.
  destruct a as [x|], b as [y|]; cbn [omax odeg].
  - split; [intros m [= <-]; pose proof (Ha x eq_refl); pose proof (Rmax_l x y); lra|].
    split; [apply Rmax_l|apply Rmax_r].
  - pose proof (Ha x eq_refl). split; [exact Ha|lra].
  - pose proof (Hb y eq_refl). split; [exact Hb|lra].
  - split; [exact Ha|lra].
Qed.

Lemma fold_omax_lower {A} (g : A -> option R) (l : list A) :
  forall acc, (forall x, In x l -> onn (g x)) -> onn acc ->
  let r := fold_left (fun acc x => omax acc (g x)) l acc in
  onn r /\ odeg acc <= odeg r /\ forall x, In x l -> odeg (g x) <= odeg r.
Proof.
  induction l as [|a t IH]; intros acc Hg Hacc; cbn [fold_left].
  - split; [exact Hacc|]. split; [lra|intros x []].
  - destruct (omax_onn acc (g a) Hacc (Hg a (or_introl eq_refl))) as (H1 & H2 & H3).
    destruct (IH (omax acc (g a))) as (R1 & R2 & R3); [intros x Hx; apply Hg; right; exact Hx|exact H1|].
    split; [exact R1|]. split; [lra|].
    intros x [<-|Hx]; [lra|apply R3; exact Hx].
Qed.

Lemma fold_omax_upper {A} (g : A -> option R) (l : list A) (B : R) :
  forall acc, 0 <= B -> odeg acc <= B -> (forall x, In x l -> odeg (g x) <= B) ->
  odeg (fold_left (fun acc x => omax acc (g x)) l acc) <= B.
Proof.
  induction l as [|a t IH]; intros acc HB Hacc Hg; cbn [fold_left]; [exact Hacc|].
  apply IH; [exact HB| |intros x Hx; apply Hg; right; exact Hx].
  pose proof (Hg a (or_introl eq_refl)) as Ha.
  destruct acc as [x|], (g a) as [y|]; cbn [omax odeg] in *; try lra.
  apply Rmax_lub; lra.
Qed.

Lemma fs_get_in (s : fset) k m : fs_get s k = Some m -> In (k, m) s.
Proof.
  induction s as [|[k' m'] t IH]; simpl; [discriminate|].
  destruct (dpoint_eq_dec k k') as [->|_]; [intros [= ->]; left; reflexivity|].
  intros H. right. exact (IH H).
Qed.

Lemma fs_get_onn (s : fset) k : Forall (fun e => 0 <= snd e) s -> onn (fs_get s k).
Proof.
  intros H m Hm. rewrite Forall_forall in H. exact (H _ (fs_get_in s k m Hm)).
Qed.

Lemma mapM_Forall2 {A B} (f : A -> result B) (l : list A) (ys : list B) :
  mapM f l = Ok ys -> Forall2 (fun x y => f x = Ok y) l ys.
Proof.
  revert ys. induction l as [|a t IH]; intros ys; cbn [mapM].
  - intros [= <-]. constructor.
  - destruct (f a) as [b|e] eqn:Ea; cbn [bind]; [|discriminate].
    destruct (mapM f t) as [bs|e] eqn:Et; cbn [bind]; [|discriminate].
    intros [= <-]. constructor; [exact Ea|apply IH; reflexivity].
Qed.

Lemma Forall2_in_l {A B} (P : A -> B -> Prop) l1 l2 x :
  Forall2 P l1 l2 -> In x l1 -> exists y, In y l2 /\ P x y.
Proof.
  induction 1 as [|a b t1 t2 Hab _ IH]; [intros []|].
  intros [<-|Hx]; [exists b; split; [left; reflexivity|exact Hab]|].
  destruct (IH Hx) as [y [Hy HP]]. exists y. split; [right; exact Hy|exact HP].
Qed.

Lemma Forall2_in_r {A B} (P : A -> B -> Prop) l1 l2 y :
  Forall2 P l1 l2 -> In y l2 -> exists x, In x l1 /\ P x y.
Proof.
  induction 1 as [|a b t1 t2 Hab _ IH]; [intros []|].
  intros [<-|Hy]; [exists a; split; [left; reflexivity|exact Hab]|].
  destruct (IH Hy) as [x [Hx HP]]. exists x. split; [right; exact Hx|exact HP].
Qed.

(** When no in-scene set holds a negative degree, the 3D (two-camera)
    model never gives a point more coverage than the simple (one-camera)
    model of the same network. *)
Theorem update_3d_le_simple {Pose} (n n3 ns : MultiCamera Pose)
  (Hnn : forall c S, In c (cams n) -> inscene_of n c = Ok S ->
         Forall (fun e => 0 <= snd e) S)
  (H3 : update_3d n = Ok n3) (Hs : update_simple n = Ok ns) :
  forall dp, fs_mu (model n3) dp <= fs_mu (model ns) dp.
Proof.
  intros dp.
  unfold update_simple in Hs.
  destruct (mapM (inscene_of n) (cams n)) as [sets|e] eqn:Es; cbn [bind] in Hs; [|discriminate].
  injection Hs as <-.
  unfold update_3d in H3.
  destruct (generate_points (scene n)) as [pts|e]; cbn [bind] in H3; [|discriminate].
  match type of H3 with context [mapM ?g (combinations2 (cams n))] =>
    destruct (mapM g (combinations2 (cams n))) as [pairs|e] eqn:Ep end;
    cbn [bind] in H3; [|discriminate].
  injection H3 as <-.
  apply mapM_Forall2 in Es. apply mapM_Forall2 in Ep.
  unfold fs_mu. cbn [model with_model]. rewrite !fs_get_fold_union.
  fold (odeg (fold_left (fun acc s => omax acc (fs_get s dp)) sets (fs_get [] dp))).
  fold (odeg (fold_left (fun acc s => omax acc (fs_get s dp)) pairs
                (fs_get (map (fun dp => (dp, 0)) pts) dp))).
  assert (Hsets : forall s, In s sets -> onn (fs_get s dp)).
  { intros s Hs. destruct (Forall2_in_r _ _ _ _ Es Hs) as [c [Hc Hcs]].
    apply fs_get_onn. exact (Hnn c s Hc Hcs). }
  destruct (fold_omax_lower (fun s => fs_get s dp) sets (fs_get [] dp) Hsets)
    as (L1 & L2 & L3); [intros m [=]|].
  cbv beta in L1, L2, L3.
  set (V := odeg (fold_left (fun acc s => omax acc (fs_get s dp)) sets (fs_get [] dp))) in *.
  assert (HV : 0 <= V) by (cbn [fs_get odeg] in L2; lra).
  assert (Hcam : forall c S, In c (cams n) -> inscene_of n c = Ok S ->
                 odeg (fs_get S dp) <= V).
  { intros c S Hc HS. destruct (Forall2_in_l _ _ _ _ Es Hc) as [s [Hs Hcs]].
    rewrite HS in Hcs. injection Hcs as <-. exact (L3 S Hs). }
  apply fold_omax_upper; [exact HV| |].
  - rewrite fs_get_zeros. destruct (in_dec _ _ _); cbn [odeg]; lra.
  - intros p Hp. destruct (Forall2_in_r _ _ _ _ Ep Hp) as [[a b] [Hab Hg]].
    cbv beta in Hg. cbn [fst snd] in Hg.
    destruct (combinations2_in _ _ _ Hab) as [Ha Hb].
    destruct (inscene_of n a) as [Sa|e] eqn:Ea; cbn [bind] in Hg; [|discriminate].
    destruct (inscene_of n b) as [Sb|e] eqn:Eb; cbn [bind] in Hg; [|discriminate].
    injection Hg as <-. rewrite fs_get_inter.
    pose proof (Hcam a Sa Ha Ea) as Ka.
    destruct (fs_get Sa dp) as [x|], (fs_get Sb dp) as [y|]; cbn [oinf odeg] in *; try lra.
    pose proof (Rmin_l x y). lra.
Qed.

(** Witness of [update_3d_le_simple]: two cameras sharing one point, with
    degrees [1/2] and [1]. *)
Lemma update_3d_le_simple_witness :
  let tr := {| kernel := (1, 2); support := (0, 3) |} in
  let ca := {| name := "a"; Cvh := tr; Cvv := tr; Cr := tr; Cf := tr;
               zeta := 1; pose := tt |} in
  let cb := {| name := "b"; Cvh := tr; Cvv := tr; Cr := tr; Cf := tr;
               zeta := 1; pose := tt |} in
  let n := {| scene := {| sx := (0, 1); sy := (0, 1); sz := (0, 1); pstep := 1;
                          dstep := PI; opaque := [] |};
              cams := [ca; cb];
              inscene := [("a"%string, [(Pt 0 0 0, 1 / 2)]); ("b"%string, [(Pt 0 0 0, 1)])];
              model := [] |} in
  exists n3 ns, update_3d n = Ok n3 /\ update_simple n = Ok ns /\
    forall dp, fs_mu (model n3) dp <= fs_mu (model ns) dp.
Proof.
  intros tr ca cb n.
  destruct (generate_points_ok (scene n)) as [pts Hg]; [simpl; lra|simpl; apply PI_neq0|].
  assert (H3 : exists n3, update_3d n = Ok n3)
    by (eexists; unfold update_3d; rewrite Hg; reflexivity).
  assert (Hs : exists ns, update_simple n = Ok ns) by (eexists; reflexivity).
  destruct H3 as [n3 H3]. destruct Hs as [ns Hs].
  assert (Hnn : forall c S, In c (cams n) -> inscene_of n c = Ok S ->
                Forall (fun e => 0 <= snd e) S).
  { intros c S [<-|[<-|[]]] H.
    - change (Ok [(Pt 0 0 0, 1 / 2)] = Ok S) in H. injection H as <-.
      repeat constructor. simpl. lra.
    - change (Ok [(Pt 0 0 0, 1)] = Ok S) in H. injection H as <-.
      repeat constructor. simpl. lra. }
  exists n3, ns. split; [exact H3|]. split; [exact Hs|].
  exact (update_3d_le_simple n n3 ns Hnn H3 Hs).
Defined.

(** ** Adding the same camera twice *)

Lemma dict_set_twice d key v :
  dict_set (dict_set d key v) key v = dict_set d key v.
Proof.
  unfold dict_set. cbn [filter fst]. rewrite String.eqb_refl. cbn [negb].
  f_equal. induction d as [|[k w] t IH]; simpl; [reflexivity|].
  destruct (String.eqb k key) eqn:E; simpl; [exact IH|rewrite E; simpl; rewrite IH; reflexivity].
Qed.

(** Running [_update_inscene] twice for the same key stores the same set. *)
Lemma update_inscene_again {Pose} (T : Pose -> vec3)
  (neg_map : Pose -> dpoint -> dpoint) (n n1 : MultiCamera Pose) (key : string) :
  update_inscene T neg_map n key = Ok n1 -> update_inscene T neg_map n1 key = Ok n1.
Proof.
  unfold update_inscene.
  destruct (generate_points (scene n)) as [pts|e] eqn:Eg; cbn [bind]; [|discriminate].
  match goal with |- context [flat_mapM ?g pts] =>
    destruct (flat_mapM g pts) as [S|e] eqn:Ef end; cbn [bind]; [|discriminate].
  intros [= <-]. cbn [scene cams inscene with_inscene]. rewrite Eg. cbn [bind].
  rewrite Ef. cbn [bind]. unfold with_inscene. cbn [scene cams inscene model].
  rewrite dict_set_twice. reflexivity.
Qed.

(** [add] is idempotent: adding a camera again to the network it was just
    added to succeeds and changes nothing. *)
Theorem add_idempotent {Pose} (T : Pose -> vec3)
  (neg_map : Pose -> dpoint -> dpoint) (n n1 : MultiCamera Pose) (c : Camera Pose)
  (H : add T neg_map n c = Ok n1) :
  add T neg_map n1 c = Ok n1.
Proof.
  unfold add in *.
  destruct (update_inscene_frame T neg_map _ _ _ H) as (_ & Hc & _).
  cbn [cams with_cams] in Hc.
  destruct (iset_add_props c (cams n)) as (_ & _ & [c0 [Hin0 Hn0]] & _).
  assert (E : iset_add c (cams n1) = cams n1).
  { unfold iset_add.
    assert (E : existsb (fun c' => String.eqb (name c') (name c)) (cams n1) = true).
    { apply existsb_exists. exists c0. rewrite Hc, Hn0, String.eqb_refl. auto. }
    rewrite E. reflexivity. }
  rewrite E. replace (with_cams n1 (cams n1)) with n1 by (destruct n1; reflexivity).
  exact (update_inscene_again T neg_map _ _ _ H).
Qed.

(** Witness of [add_idempotent]: a camera added to an empty network. *)
Lemma add_idempotent_witness :
  let tr := {| kernel := (1, 2); support := (0, 3) |} in
  let c := {| name := "a"; Cvh := tr; Cvv := tr; Cr := tr; Cf := tr;
              zeta := 1; pose := tt |} in
  let n := {| scene := {| sx := (0, 1); sy := (0, 1); sz := (0, 1); pstep := 1;
                          dstep := PI; opaque := [] |};
              cams := []; inscene := []; model := [] |} in
  exists n1, add (fun _ => V3 0 0 0) (fun _ d => d) n c = Ok n1 /\
    add (fun _ => V3 0 0 0) (fun _ d => d) n1 c = Ok n1.
Proof.
  intros tr c n.
  assert (H1 : 0 < pstep (scene (with_cams n [c]))) by (simpl; lra).
  assert (H2 : dstep (scene (with_cams n [c])) <> 0) by (simpl; apply PI_neq0).
  assert (H3 : forall c0, In c0 (cams (with_cams n [c])) -> zeta c0 <> 0)
    by (intros c0 [<-|[]]; simpl; lra).
  assert (H4 : exists c0, In c0 (cams (with_cams n [c])) /\ name c0 = "a"%string)
    by (exists c; split; [left|]; reflexivity).
  destruct (update_inscene_ok (fun _ => V3 0 0 0) (fun _ d => d) _ _ H1 H2 H3 H4)
    as [n1 Hn1].
  assert (Ha : add (fun _ => V3 0 0 0) (fun _ d => d) n c = Ok n1) by exact Hn1.
  exists n1. split; [exact Ha|].
  exact (add_idempotent (fun _ => V3 0 0 0) (fun _ d => d) n n1 c Ha).
Defined.
